(** * promql-to-dd-go worker: range calculator, tick executor, scheduler loop

    A shallow embedding of [worker/worker.go].

    - [time.Duration] and Unix times are [int64]: they are modelled as [Z]
      with the two's-complement wrap-around written out ([wrap64]).
    - [float64] is modelled by the IEEE-754 binary64 operations of
      [SpecFloat] (round to nearest even), so [Duration.Seconds] and the
      multiplication by [1.2] are computed bit for bit.
    - The collaborators ([prometheus.Querier], [datadog.Submitter]) are
      records of functions over an abstract world; a tick is a program in a
      small monad that threads the world, collects the collaborator calls
      and channel sends it performs, and stops at [return] or [panic].
    - [Run] is a labelled transition function on the state of the process:
      the loop's control point, the error channel and the [do] goroutines.

    Logging ([log.Printf], [log.Println]) has no effect on any of this and
    is left out. *)

From Stdlib Require Import ZArith List String Bool Lia SpecFloat Reals Lra Permutation.
Import ListNotations.
Local Open Scope Z_scope.

(* ================================================================== *)
(** * Definitions *)
(* ================================================================== *)

(** ** int64 arithmetic *)

Definition min_int64 : Z := - 2 ^ 63.
Definition max_int64 : Z := 2 ^ 63 - 1.

(** Two's-complement reduction of an integer to 64 bits. *)
Definition wrap64 (z : Z) : Z := (z + 2 ^ 63) mod 2 ^ 64 - 2 ^ 63.

Definition add64 (a b : Z) : Z := wrap64 (a + b).
Definition sub64 (a b : Z) : Z := wrap64 (a - b).
Definition mul64 (a b : Z) : Z := wrap64 (a * b).

(** Go's [/] on integers truncates towards zero; a zero divisor is a
    run-time panic ([None]).  [min_int64 / -1] wraps. *)
Definition div64 (a b : Z) : option Z :=
  if b =? 0 then None else Some (wrap64 (Z.quot a b)).

(** ** float64 *)

Module Float64.

Definition prec : Z := 53.
Definition emax : Z := 1024.

Definition of_int (z : Z) : spec_float := binary_normalize prec emax z 0 false.
Definition add : spec_float -> spec_float -> spec_float := SFadd prec emax.
Definition mul : spec_float -> spec_float -> spec_float := SFmul prec emax.
Definition div : spec_float -> spec_float -> spec_float := SFdiv prec emax.

(** The integer part of a finite float (truncation towards zero). *)
Definition trunc (f : spec_float) : option Z :=
  match f with
  | S754_zero _ => Some 0
  | S754_finite s m e =>
      let a := match e with
               | Z0 => Zpos m
               | Zpos _ => Zpos m * 2 ^ e
               | Zneg p => Zpos m / 2 ^ Zpos p
               end in
      Some (if s then - a else a)
  | _ => None
  end.

(** The conversion [int64(f)].  Go leaves the result unspecified when the
    value does not fit; amd64 yields [min_int64] there, also for NaN and
    the infinities. *)
Definition to_int64 (f : spec_float) : Z :=
  match trunc f with
  | Some t => if (min_int64 <=? t) && (t <=? max_int64) then t else min_int64
  | None => min_int64
  end.

(** The constants [1e9] and [1.2] as float64: [1e9] is exact, [1.2] is the
    correctly rounded quotient [12/10]. *)
Definition f1e9 : spec_float := Eval vm_compute in of_int 1000000000.
Definition f1_2 : spec_float := Eval vm_compute in div (of_int 12) (of_int 10).

(** Real value of a positive float, used to state rounding bounds. *)
Definition bpow (e : Z) : R := powerRZ 2 e.
Definition F2R (m : positive) (e : Z) : R := (IZR (Zpos m) * bpow e)%R.
Definition u52 : R := bpow (-52).

End Float64.

(** ** package time *)

Definition Second : Z := 1000000000.

(** [func (d Duration) Seconds() float64]:
    [sec := d / Second; nsec := d % Second;
     return float64(sec) + float64(nsec)/1e9]. *)
Definition Seconds (d : Z) : spec_float :=
  let sec := Z.quot d Second in
  let nsec := Z.rem d Second in
  Float64.add (Float64.of_int sec) (Float64.div (Float64.of_int nsec) Float64.f1e9).

(** ** The worker and its collaborators *)

Definition error : Type := string.

Inductive result (A : Type) : Type :=
| Ok (a : A)
| Err (e : error).
Arguments Ok {A} a.
Arguments Err {A} e.

(** [promapi.Range]; [Start] and [End] are Unix seconds ([time.Unix(s, 0)]),
    [Step] is a [time.Duration]. *)
Record Range : Type := { Start : Z; End_ : Z; Step : Z }.

Section Worker.

(** [World] is the state of everything outside the process (the metrics
    backend, the submission backend, the clock); [Matrix] is
    [model.Matrix] and [MetricSeries] is [datadogV2.MetricSeries]. *)
Context {World Matrix MetricSeries : Type}.

(** [prometheus.Querier] *)
Record Querier : Type := {
  ListMetrics : string -> World -> result (list string * list string) * World;
  QueryMetrics : string -> Range -> World -> result Matrix * World
}.

(** [datadog.Submitter] *)
Record Submitter : Type := {
  SubmitMetrics : list MetricSeries -> World -> option error * World
}.

(** What [worker.go] calls and does not define: the clock
    ([time.Now().Unix()]), the [%.2f] verb of [fmt.Sprintf], and the three
    translators of this package. *)
Class Externals : Type := {
  Now : World -> Z;
  Sprintf_2f : spec_float -> string;
  PromHistogramToDatadogGauge : string -> spec_float -> Matrix -> list MetricSeries;
  PromCountToDatadogRate : string -> Matrix -> list MetricSeries;
  PromCountToDatadogCount : string -> Matrix -> list MetricSeries
}.

Record Worker : Type := {
  querier : Querier;
  submitter : Submitter;
  MetricPrefix : string;
  Quantiles : list spec_float;
  QueryInterval : Z;
  StepDuration : Z;
  SleepDuration : Z
}.

Definition RetryInterval : Z := 3 * Second.

(** [fmt.Sprintf(HistogramPromQL, quantile, bucketName)] *)
Definition HistogramPromQL `{Externals} (quantile : spec_float) (bucketName : string) : string :=
  ("histogram_quantile(" ++ Sprintf_2f quantile ++ ", sum(rate(" ++ bucketName
     ++ "[1m])) by (temporal_namespace,operation,le))")%string.

(** [fmt.Sprintf(RatePromQL, counterName)] *)
Definition RatePromQL (counterName : string) : string :=
  ("rate(" ++ counterName ++ "[1m])")%string.

(** [time.Duration(w.QueryInterval.Seconds()*1.2) * time.Second] *)
Definition QueryWindow (w : Worker) : Z :=
  mul64 (Float64.to_int64 (Float64.mul (Seconds (QueryInterval w)) Float64.f1_2)) Second.

(** The local [stepSeconds] of [calcRange]. *)
Definition stepSeconds (w : Worker) : Z := Float64.to_int64 (Seconds (StepDuration w)).

(** [int64(w.QueryWindow().Seconds())], the operand of [calcRange]. *)
Definition windowSeconds (w : Worker) : Z := Float64.to_int64 (Seconds (QueryWindow w)).

(** [calcRange], with [time.Now().Unix()] as an argument.  [None] is the
    run-time panic of an integer division by zero. *)
Definition calcRange (w : Worker) (now : Z) : option Range :=
  let end_ := mul64 (wrap64 (Z.quot now 60)) 60 in
  let star := sub64 end_ (windowSeconds w) in
  match div64 star (stepSeconds w), div64 end_ (stepSeconds w) with
  | Some qs, Some qe =>
      Some {| Start := mul64 (sub64 qs 1) (stepSeconds w);
              End_ := mul64 (add64 qe 1) (stepSeconds w);
              Step := StepDuration w |}
  | _, _ => None
  end.

(** *** One tick *)

(** What a tick does that is visible outside it. *)
Inductive Event : Type :=
| EvListMetrics (prefix : string) (r : result (list string * list string))
| EvQueryMetrics (promql : string) (rng : Range) (r : result Matrix)
| EvSubmitMetrics (series : list MetricSeries) (r : option error)
| EvSend (e : error).

Inductive PanicValue : Type :=
| DivideByZero
| PanicError (e : error).

(** How [do] ends. *)
Inductive Outcome : Type :=
| Returned
| Panicked (v : PanicValue).

Inductive Flow (A : Type) : Type :=
| Next (a : A)
| Stop (o : Outcome).
Arguments Next {A} a.
Arguments Stop {A} o.

Definition M (A : Type) : Type := World -> Flow A * World * list Event.

Definition ret {A} (a : A) : M A := fun s => (Next a, s, []).

Definition bind {A B} (m : M A) (f : A -> M B) : M B :=
  fun s =>
    match m s with
    | (Next a, s1, ev1) =>
        match f a s1 with
        | (r, s2, ev2) => (r, s2, ev1 ++ ev2)
        end
    | (Stop o, s1, ev1) => (Stop o, s1, ev1)
    end.

Definition return_ {A} : M A := fun s => (Stop Returned, s, []).
Definition panic {A} (v : PanicValue) : M A := fun s => (Stop (Panicked v), s, []).
Definition send (e : error) : M unit := fun s => (Next tt, s, [EvSend e]).
Definition timeNow `{Externals} : M Z := fun s => (Next (Now s), s, []).

Definition listMetrics (w : Worker) (prefix : string) : M (result (list string * list string)) :=
  fun s => match ListMetrics (querier w) prefix s with
           | (r, s') => (Next r, s', [EvListMetrics prefix r])
           end.

Definition queryMetrics (w : Worker) (promql : string) (rng : Range) : M (result Matrix) :=
  fun s => match QueryMetrics (querier w) promql rng s with
           | (r, s') => (Next r, s', [EvQueryMetrics promql rng r])
           end.

Definition submitMetrics (w : Worker) (series : list MetricSeries) : M (option error) :=
  fun s => match SubmitMetrics (submitter w) series s with
           | (r, s') => (Next r, s', [EvSubmitMetrics series r])
           end.

End Worker.

Arguments Querier : clear implicits.
Arguments Submitter : clear implicits.
Arguments Externals : clear implicits.
Arguments Worker : clear implicits.
Arguments Event : clear implicits.
Arguments M : clear implicits.
Arguments Next {A} a.
Arguments Stop {A} o.

Declare Scope tick_scope.
Delimit Scope tick_scope with tick.
Notation "x <- m ;; k" := (bind m (fun x => k))
  (at level 61, m at next level, right associativity) : tick_scope.
Notation "m ;;; k" := (bind m (fun _ => k))
  (at level 61, right associativity) : tick_scope.

Section Tick.

Context {World Matrix MetricSeries : Type}.
Context {ext : Externals World Matrix MetricSeries}.

Let Worker : Type := Worker World Matrix MetricSeries.
Let M : Type -> Type := M World Matrix MetricSeries.
Let Event : Type := Event Matrix MetricSeries.
Local Open Scope tick_scope.

(** The inner loop [for _, bucketName := range histograms] for one
    quantile; [acc] is [histogramSeries]. *)
Fixpoint histogramBuckets (w : Worker) (rng : Range) (quantile : spec_float)
    (buckets : list string) (acc : list MetricSeries) : M (list MetricSeries) :=
  match buckets with
  | [] => ret acc
  | bucketName :: rest =>
      r <- queryMetrics w (HistogramPromQL quantile bucketName) rng ;;
      match r with
      | Err e => send e ;;; return_
      | Ok matrix =>
          histogramBuckets w rng quantile rest
            (acc ++ PromHistogramToDatadogGauge bucketName quantile matrix)
      end
  end.

(** The outer loop [for _, quantile := range w.Quantiles]. *)
Fixpoint histogramQuantiles (w : Worker) (rng : Range) (quantiles : list spec_float)
    (histograms : list string) (acc : list MetricSeries) : M (list MetricSeries) :=
  match quantiles with
  | [] => ret acc
  | quantile :: rest =>
      acc' <- histogramBuckets w rng quantile histograms acc ;;
      histogramQuantiles w rng rest histograms acc'
  end.

(** The loop [for _, counterName := range counters]; the accumulators are
    [rateSeries] and [countSeries]. *)
Fixpoint counterLoop (w : Worker) (rng : Range) (counters : list string)
    (rateSeries countSeries : list MetricSeries)
    : M (list MetricSeries * list MetricSeries) :=
  match counters with
  | [] => ret (rateSeries, countSeries)
  | counterName :: rest =>
      r <- queryMetrics w (RatePromQL counterName) rng ;;
      match r with
      | Err e => send e ;;; return_
      | Ok matrix =>
          let rateSeries := rateSeries ++ PromCountToDatadogRate counterName matrix in
          r <- queryMetrics w counterName rng ;;
          match r with
          | Err e => send e ;;; return_
          | Ok matrix =>
              let countSeries := countSeries ++ PromCountToDatadogCount counterName matrix in
              counterLoop w rng rest rateSeries countSeries
          end
      end
  end.

(** [func (w *Worker) do(errorChan chan<- error)] *)
Definition do (w : Worker) : M unit :=
  now <- timeNow ;;
  match calcRange w now with
  | None => panic DivideByZero
  | Some queryRange =>
      r <- listMetrics w (MetricPrefix w) ;;
      match r with
      | Err e => panic (PanicError e)
      | Ok (histograms, counters) =>
          histogramSeries <- histogramQuantiles w queryRange (Quantiles w) histograms [] ;;
          rc <- counterLoop w queryRange counters [] [] ;;
          let series := (histogramSeries ++ fst rc) ++ snd rc in
          err <- submitMetrics w series ;;
          match err with
          | Some e => send e ;;; return_
          | None => ret tt
          end
      end
  end.

(** Running one tick in a world: how it ended, the world it left, and what
    it did. *)
Definition run_do (w : Worker) (s : World) : Outcome * World * list Event :=
  match do w s with
  | (Next _, s', evs) => (Returned, s', evs)
  | (Stop o, s', evs) => (o, s', evs)
  end.

(** *** Reading a tick's events *)

Definition is_send (ev : Event) : bool :=
  match ev with EvSend _ => true | _ => false end.

Definition is_query (ev : Event) : bool :=
  match ev with EvQueryMetrics _ _ _ => true | _ => false end.

(** A catalog listing or a range query that returned an error. *)
Definition is_failed_call (ev : Event) : bool :=
  match ev with
  | EvListMetrics _ (Err _) => true
  | EvQueryMetrics _ _ (Err _) => true
  | _ => false
  end.

(** The expressions of the range queries, in the order issued. *)
Definition queries (evs : list Event) : list string :=
  flat_map (fun ev => match ev with EvQueryMetrics q _ _ => [q] | _ => [] end) evs.

(** The windows of the range queries, in the order issued. *)
Definition query_ranges (evs : list Event) : list Range :=
  flat_map (fun ev => match ev with EvQueryMetrics _ rng _ => [rng] | _ => [] end) evs.

(** The batches handed to [SubmitMetrics]. *)
Definition submitted (evs : list Event) : list (list MetricSeries) :=
  flat_map (fun ev => match ev with EvSubmitMetrics s _ => [s] | _ => [] end) evs.

(** The errors sent on the error channel. *)
Definition sent (evs : list Event) : list error :=
  flat_map (fun ev => match ev with EvSend e => [e] | _ => [] end) evs.

(** *** The events of the three groups of queries when all succeed *)

(** The (quantile, bucket name) pairs in the order of the nested loops. *)
Definition histogramPairs (quantiles : list spec_float) (histograms : list string)
    : list (spec_float * string) :=
  list_prod quantiles histograms.

Definition histogramEvents (rng : Range) (pairs : list (spec_float * string))
    (ms : list Matrix) : list Event :=
  map (fun pm => EvQueryMetrics (HistogramPromQL (fst (fst pm)) (snd (fst pm))) rng (Ok (snd pm)))
      (combine pairs ms).

Definition gaugeSeries (pairs : list (spec_float * string)) (ms : list Matrix)
    : list MetricSeries :=
  flat_map (fun pm => PromHistogramToDatadogGauge (snd (fst pm)) (fst (fst pm)) (snd pm))
           (combine pairs ms).

Definition counterEvents (rng : Range) (counters : list string)
    (ms : list (Matrix * Matrix)) : list Event :=
  flat_map (fun cm => [EvQueryMetrics (RatePromQL (fst cm)) rng (Ok (fst (snd cm)));
                       EvQueryMetrics (fst cm) rng (Ok (snd (snd cm)))])
           (combine counters ms).

Definition rateSeriesOf (counters : list string) (ms : list (Matrix * Matrix))
    : list MetricSeries :=
  flat_map (fun cm => PromCountToDatadogRate (fst cm) (fst (snd cm))) (combine counters ms).

Definition countSeriesOf (counters : list string) (ms : list (Matrix * Matrix))
    : list MetricSeries :=
  flat_map (fun cm => PromCountToDatadogCount (fst cm) (snd (snd cm))) (combine counters ms).

(** The expressions of the three groups of queries for a catalog. *)
Definition histogramQueries (quantiles : list spec_float) (histograms : list string)
    : list string :=
  map (fun p => HistogramPromQL (fst p) (snd p)) (histogramPairs quantiles histograms).

Definition rateQueries (counters : list string) : list string := map RatePromQL counters.

Definition rawQueries (counters : list string) : list string := counters.

(** The queries of the counter loop, which issues the rate query and the
    raw query of a counter one after the other. *)
Definition counterQueries (counters : list string) : list string :=
  flat_map (fun c => [RatePromQL c; c]) counters.

(** *** The shapes a tick can take *)

(** A range query over [rng] that succeeded. *)
Definition ok_query_at (rng : Range) (ev : Event) : Prop :=
  exists q m, ev = EvQueryMetrics q rng (Ok m).

(** Successful range queries, then one that fails and the report of its
    error on the channel. *)
Definition aborted_at (rng : Range) (evs : list Event) : Prop :=
  exists okq q e,
    Forall (ok_query_at rng) okq /\
    evs = okq ++ [EvQueryMetrics q rng (Err e); EvSend e].

(** The four ways a tick of worker [w] started in world [s] can go. *)
Inductive TickShape (w : Worker) (s : World) : Outcome -> list Event -> Prop :=
| shape_divide_by_zero :
    calcRange w (Now s) = None ->
    TickShape w s (Panicked DivideByZero) []
| shape_listing_failed rng e :
    calcRange w (Now s) = Some rng ->
    TickShape w s (Panicked (PanicError e)) [EvListMetrics (MetricPrefix w) (Err e)]
| shape_query_failed rng histograms counters evs :
    calcRange w (Now s) = Some rng ->
    aborted_at rng evs ->
    TickShape w s Returned (EvListMetrics (MetricPrefix w) (Ok (histograms, counters)) :: evs)
| shape_submitted rng histograms counters hms cms r :
    calcRange w (Now s) = Some rng ->
    List.length hms = List.length (histogramPairs (Quantiles w) histograms) ->
    List.length cms = List.length counters ->
    TickShape w s Returned
      (EvListMetrics (MetricPrefix w) (Ok (histograms, counters))
         :: histogramEvents rng (histogramPairs (Quantiles w) histograms) hms
         ++ counterEvents rng counters cms
         ++ EvSubmitMetrics
              ((gaugeSeries (histogramPairs (Quantiles w) histograms) hms
                  ++ rateSeriesOf counters cms) ++ countSeriesOf counters cms) r
         :: match r with Some e => [EvSend e] | None => [] end).

End Tick.

(** ** The scheduler loop *)

(** Where [Run] is. *)
Inductive Loop : Type :=
| Selecting          (* blocked in the [select] *)
| Sleeping (d : Z)   (* in [time.Sleep(d)], after logging a tick's error *)
| Stopped            (* [Run] has returned *)
| Crashed.           (* a goroutine panicked and took the process down *)

(** What can happen next in the process. *)
Inductive Input (World : Type) : Type :=
| TickRuns (s : World)         (* a running [do] goroutine executes, in world [s],
                                  up to its return, its channel send or its panic *)
| ErrorReceived                (* the select takes [err := <-errs] *)
| TickerFires                  (* the select takes [<-ticker.C] *)
| Interrupted (sig : string)   (* the select takes [s := <-interrupt] *)
| SleepEnds.                   (* [time.Sleep(RetryInterval)] returns *)
Arguments TickRuns {World} s.
Arguments ErrorReceived {World}.
Arguments TickerFires {World}.
Arguments Interrupted {World} sig.
Arguments SleepEnds {World}.

(** [errs := make(chan error, 1)] *)
Definition errsCapacity : nat := 1.

Section Run.

Context {World Matrix MetricSeries : Type}.
Context {ext : Externals World Matrix MetricSeries}.

Record Proc : Type := {
  loop : Loop;
  errs : list error;        (* the values buffered in the channel [errs] *)
  blocked : list error;     (* [errorChan <- err] statements waiting for room *)
  launched : nat;           (* [go w.do(errs)] statements executed *)
  finished : nat;           (* [do] goroutines that have returned *)
  failures : list error;    (* the errors [Run] has received and logged *)
  history : list (Event Matrix MetricSeries)  (* what all ticks did so far *)
}.

(** [Run] up to its first [select].  [time.NewTicker(w.SleepDuration)]
    panics for a duration that is not positive, before any tick is
    launched; otherwise one tick is launched and nothing is received yet. *)
Definition Run_start (w : Worker World Matrix MetricSeries) : Proc :=
  if SleepDuration w <=? 0
  then {| loop := Crashed; errs := []; blocked := []; launched := 0; finished := 0;
          failures := []; history := [] |}
  else {| loop := Selecting; errs := []; blocked := []; launched := 1; finished := 0;
          failures := []; history := [] |}.

(** The top of the [for] loop: [go w.do(errs)], then the [select]. *)
Definition launch (p : Proc) : Proc :=
  {| loop := Selecting; errs := errs p; blocked := blocked p;
     launched := S (launched p); finished := finished p;
     failures := failures p; history := history p |}.

(** [errorChan <- e] followed by [return]: the value is buffered when there
    is room, otherwise the goroutine waits. *)
Definition chan_send (e : error) (p : Proc) : Proc :=
  if (List.length (errs p) <? errsCapacity)%nat
  then {| loop := loop p; errs := errs p ++ [e]; blocked := blocked p;
          launched := launched p; finished := S (finished p);
          failures := failures p; history := history p |}
  else {| loop := loop p; errs := errs p; blocked := blocked p ++ [e];
          launched := launched p; finished := finished p;
          failures := failures p; history := history p |}.

Definition record_events (evs : list (Event Matrix MetricSeries)) (p : Proc) : Proc :=
  {| loop := loop p; errs := errs p; blocked := blocked p;
     launched := launched p; finished := finished p;
     failures := failures p; history := history p ++ evs |}.

(** One step of the process.  [None]: the input cannot happen in this
    state.  Nothing happens once [Run] has returned or the process has
    crashed. *)
Definition Run_step (w : Worker World Matrix MetricSeries) (p : Proc)
    (i : Input World) : option Proc :=
  match loop p with
  | Stopped | Crashed => None
  | Selecting | Sleeping _ =>
      match i with
      | TickRuns s =>
          if (finished p + List.length (blocked p) <? launched p)%nat then
            match run_do w s with
            | (Panicked _, _, evs) =>
                Some {| loop := Crashed; errs := errs p; blocked := blocked p;
                        launched := launched p; finished := finished p;
                        failures := failures p; history := history p ++ evs |}
            | (Returned, _, evs) =>
                match sent evs with
                | [] =>
                    Some {| loop := loop p; errs := errs p; blocked := blocked p;
                            launched := launched p; finished := S (finished p);
                            failures := failures p; history := history p ++ evs |}
                | e :: _ => Some (chan_send e (record_events evs p))
                end
            end
          else None
      | ErrorReceived =>
          match loop p, errs p with
          | Selecting, e :: rest =>
              (* log the error, sleep; a waiting sender takes the free slot *)
              Some {| loop := Sleeping RetryInterval;
                      errs := rest ++ firstn 1 (blocked p);
                      blocked := skipn 1 (blocked p);
                      launched := launched p;
                      finished := finished p + List.length (firstn 1 (blocked p));
                      failures := failures p ++ [e]; history := history p |}
          | _, _ => None
          end
      | TickerFires =>
          match loop p with
          | Selecting => Some (launch p)
          | _ => None
          end
      | Interrupted _ =>
          match loop p with
          | Selecting =>
              Some {| loop := Stopped; errs := errs p; blocked := blocked p;
                      launched := launched p; finished := finished p;
                      failures := failures p; history := history p |}
          | _ => None
          end
      | SleepEnds =>
          match loop p with
          | Sleeping _ => Some (launch p)
          | _ => None
          end
      end
  end.

(** A run of the process over a sequence of inputs. *)
Fixpoint Run_exec (w : Worker World Matrix MetricSeries) (p : Proc)
    (inputs : list (Input World)) : option Proc :=
  match inputs with
  | [] => Some p
  | i :: rest =>
      match Run_step w p i with
      | Some p' => Run_exec w p' rest
      | None => None
      end
  end.

End Run.

Arguments Proc : clear implicits.

(** ** A scripted backend for examples *)

Module Example.

(** The world holds the clock and the script of the two backends: which
    range query fails (counted from 0), whether the catalog listing fails,
    whether the submission fails. *)
Record World : Type := {
  clock : Z;
  answered : nat;
  failing_query : option nat;
  listing_fails : bool;
  submission_fails : bool
}.

(** A matrix is identified by the expression that produced it, a series by
    the translator and the matrix it comes from. *)
Definition Matrix : Type := string.
Definition MetricSeries : Type := string.

Definition answer (s : World) : World :=
  {| clock := clock s; answered := S (answered s); failing_query := failing_query s;
     listing_fails := listing_fails s; submission_fails := submission_fails s |}.

Definition exQuerier : Querier World Matrix :=
  {| ListMetrics := fun _ s =>
       (if listing_fails s then Err "list failed"%string
        else Ok (["latency_bucket"%string], ["requests_total"%string]), s);
     QueryMetrics := fun promql _ s =>
       (match failing_query s with
        | Some n => if Nat.eqb n (answered s) then Err "query failed"%string else Ok promql
        | None => Ok promql
        end, answer s) |}.

Definition exSubmitter : Submitter World MetricSeries :=
  {| SubmitMetrics := fun _ s =>
       (if submission_fails s then Some "submit failed"%string else None, s) |}.

Definition q50 : spec_float := Eval vm_compute in Float64.div (Float64.of_int 1) (Float64.of_int 2).
Definition q99 : spec_float := Eval vm_compute in Float64.div (Float64.of_int 99) (Float64.of_int 100).

#[global] Instance exExternals : Externals World Matrix MetricSeries :=
  {| Now := clock;
     Sprintf_2f := fun q =>
       if SFeqb q q50 then "0.50"%string
       else if SFeqb q q99 then "0.99"%string else "?"%string;
     PromHistogramToDatadogGauge := fun _ _ m => [("gauge:" ++ m)%string];
     PromCountToDatadogRate := fun _ m => [("rate:" ++ m)%string];
     PromCountToDatadogCount := fun _ m => [("count:" ++ m)%string] |}.

Definition exWorker (queryInterval step sleep : Z) : Worker World Matrix MetricSeries :=
  {| querier := exQuerier; submitter := exSubmitter;
     MetricPrefix := "temporal_cloud"%string; Quantiles := [q50; q99];
     QueryInterval := queryInterval; StepDuration := step; SleepDuration := sleep |}.

(** Worlds at Unix time [now]: everything works, the [n]-th range query
    fails, the listing fails, the submission fails. *)
Definition healthy (now : Z) : World :=
  {| clock := now; answered := 0; failing_query := None;
     listing_fails := false; submission_fails := false |}.

Definition query_fails (now : Z) (n : nat) : World :=
  {| clock := now; answered := 0; failing_query := Some n;
     listing_fails := false; submission_fails := false |}.

Definition list_fails (now : Z) : World :=
  {| clock := now; answered := 0; failing_query := None;
     listing_fails := true; submission_fails := false |}.

Definition submit_fails (now : Z) : World :=
  {| clock := now; answered := 0; failing_query := None;
     listing_fails := false; submission_fails := true |}.

End Example.

(** ** An empty catalog *)

Module EmptyCatalog.

Import Example.

(** A backend whose catalog has no metric under the prefix. *)
Definition emptyQuerier : Querier World Matrix :=
  {| ListMetrics := fun _ s => (Ok ([], []), s);
     QueryMetrics := QueryMetrics exQuerier |}.

Definition emptyWorker (queryInterval step sleep : Z) : Worker World Matrix MetricSeries :=
  {| querier := emptyQuerier; submitter := exSubmitter;
     MetricPrefix := "temporal_cloud"%string; Quantiles := [q50; q99];
     QueryInterval := queryInterval; StepDuration := step; SleepDuration := sleep |}.

End EmptyCatalog.

(** ** Reading a run of the process *)

(** The inputs of a run by kind, and their number. *)
Definition is_ticker {World : Type} (i : Input World) : bool :=
  match i with TickerFires => true | _ => false end.

Definition is_wake {World : Type} (i : Input World) : bool :=
  match i with SleepEnds => true | _ => false end.

Definition is_receive {World : Type} (i : Input World) : bool :=
  match i with ErrorReceived => true | _ => false end.

Definition count_inputs {World : Type} (f : Input World -> bool)
    (inputs : list (Input World)) : nat :=
  List.length (filter f inputs).

(** One while [Run] sits in [time.Sleep(RetryInterval)]. *)
Definition backing_off (l : Loop) : nat :=
  match l with Sleeping _ => 1 | _ => 0 end.

(** Where the errors of the ticks are: logged by [Run], buffered in the
    channel, or held by a goroutine waiting to send. *)
Definition Run_invariant {Matrix MetricSeries : Type} (p : Proc Matrix MetricSeries) : Prop :=
  failures p ++ errs p ++ blocked p = sent (history p) /\
  (List.length (errs p) <= errsCapacity)%nat /\
  (blocked p <> [] -> List.length (errs p) = errsCapacity) /\
  (finished p + List.length (blocked p) <= launched p)%nat.

(* ================================================================== *)
(** * Theorems *)
(* ================================================================== *)

(** ** Rounding in binary64

    Each operation used by [Seconds] and [QueryWindow] returns, on positive
    operands in the normal range, a 53-bit float within a relative distance
    of a few [2^-52] of the exact result. *)

Module Float64Facts.

Import Float64.


Lemma digits2_bounds p :
  2 ^ (Zpos (digits2_pos p) - 1) <= Zpos p < 2 ^ Zpos (digits2_pos p).
Proof.
  induction p as [p IH|p IH|]; cbn [digits2_pos].
  - rewrite Pos2Z.inj_succ.
    replace (Z.succ (Zpos (digits2_pos p)) - 1) with (Z.succ (Zpos (digits2_pos p) - 1)) by lia.
    rewrite !Z.pow_succ_r by lia. lia.
  - rewrite Pos2Z.inj_succ.
    replace (Z.succ (Zpos (digits2_pos p)) - 1) with (Z.succ (Zpos (digits2_pos p) - 1)) by lia.
    rewrite !Z.pow_succ_r by lia. lia.
  - simpl. lia.
Qed.

Lemma digits2_unique p k :
  2 ^ (k - 1) <= Zpos p < 2 ^ k -> Zpos (digits2_pos p) = k.
Proof.
  intros [Hl Hu]. pose proof (digits2_bounds p) as [Bl Bu].
  set (d := Zpos (digits2_pos p)) in *.
  assert (Hd : 0 < d) by (subst d; lia).
  destruct (Z.lt_trichotomy d k) as [Hlt|[Heq|Hgt]]; [|assumption|].
  - exfalso. assert (2 ^ d <= 2 ^ (k - 1)) by (apply Z.pow_le_mono_r; lia). lia.
  - exfalso. destruct (Z_lt_le_dec k 0) as [Hk|Hk].
    + rewrite Z.pow_neg_r in Hu by assumption. lia.
    + assert (2 ^ k <= 2 ^ (d - 1)) by (apply Z.pow_le_mono_r; lia). lia.
Qed.

Lemma shr_m_shr_1 r : 0 <= shr_m r -> shr_m (shr_1 r) = shr_m r / 2.
Proof.
  destruct r as [m r s]; simpl. intros H.
  destruct m as [|p|p]; [reflexivity| |lia].
  destruct p; simpl.
  - rewrite Pos2Z.inj_xI. apply Z.div_unique with 1; lia.
  - rewrite Pos2Z.inj_xO. apply Z.div_unique with 0; lia.
  - reflexivity.
Qed.

Lemma shr_m_iter p r :
  0 <= shr_m r -> shr_m (SpecFloat.iter_pos shr_1 p r) = shr_m r / 2 ^ Zpos p.
Proof.
  revert r. induction p as [p IH|p IH|]; intros r H; cbn [SpecFloat.iter_pos].
  - assert (H1 : 0 <= shr_m (shr_1 r)) by (rewrite shr_m_shr_1 by assumption; apply Z.div_pos; lia).
    assert (H2 : 0 <= shr_m (SpecFloat.iter_pos shr_1 p (shr_1 r))) by (rewrite IH by assumption; apply Z.div_pos; lia).
    rewrite IH, IH, shr_m_shr_1 by assumption.
    rewrite !Z.div_div by lia. f_equal.
    replace (Zpos p~1) with (1 + Zpos p + Zpos p) by lia.
    rewrite !Z.pow_add_r by lia. change (2 ^ 1) with 2. ring.
  - assert (H2 : 0 <= shr_m (SpecFloat.iter_pos shr_1 p r)) by (rewrite IH by assumption; apply Z.div_pos; lia).
    rewrite IH, IH by assumption.
    rewrite !Z.div_div by lia. f_equal.
    replace (Zpos p~0) with (Zpos p + Zpos p) by lia.
    rewrite !Z.pow_add_r by lia. ring.
  - rewrite shr_m_shr_1 by assumption. reflexivity.
Qed.

Lemma fexp_normal e : -1074 <= e - 53 -> fexp prec emax e = e - 53.
Proof. unfold fexp, emin, prec, emax. lia. Qed.

Lemma round_nearest_even_cases m l :
  round_nearest_even m l = m \/ round_nearest_even m l = m + 1.
Proof.
  destruct l as [|[| |]]; simpl; auto. destruct (Z.even m); auto.
Qed.

(* the first component of shr_fexp *)
Lemma shr_fexp_spec m e l :
  0 < m -> -1074 <= Zdigits2 m + e - 53 -> 53 <= Zdigits2 m ->
  let n := Zdigits2 m - 53 in
  shr_m (fst (shr_fexp prec emax m e l)) = m / 2 ^ n /\
  snd (shr_fexp prec emax m e l) = e + n /\
  (n = 0 -> fst (shr_fexp prec emax m e l) = shr_record_of_loc m l).
Proof.
  intros Hm Hr Hd n. unfold shr_fexp. rewrite fexp_normal by assumption.
  replace (Zdigits2 m + e - 53 - e) with n by (unfold n; lia).
  assert (Hsm : shr_m (shr_record_of_loc m l) = m) by (destruct l as [|[| |]]; reflexivity).
  destruct n as [|p|p] eqn:En; [| |lia]; cbn [shr fst snd].
  - rewrite Hsm, Z.div_1_r. repeat split; lia.
  - rewrite shr_m_iter by (rewrite Hsm; lia). rewrite Hsm. repeat split; lia.
Qed.

Local Open Scope R_scope.

Lemma bpow_add a b : bpow (a + b) = bpow a * bpow b.
Proof. unfold bpow. apply powerRZ_add. lra. Qed.

Lemma bpow_pos e : 0 < bpow e.
Proof. unfold bpow. apply powerRZ_lt. lra. Qed.

Lemma IZR_pow2 n : (0 <= n)%Z -> IZR (2 ^ n) = bpow n.
Proof.
  intros H. destruct n as [|p|p]; [reflexivity| |lia].
  unfold bpow. change (2 ^ Zpos p)%Z with (Z.pow_pos 2 p).
  apply Zpower_pos_powerRZ.
Qed.

Lemma bpow_1 : bpow 1 = 2.
Proof. unfold bpow. simpl. lra. Qed.

Local Open Scope Z_scope.

Lemma div_pow2_bounds m d n :
  2 ^ (d - 1) <= m < 2 ^ d -> 0 <= n -> n <= d - 1 ->
  2 ^ (d - 1 - n) <= m / 2 ^ n < 2 ^ (d - n).
Proof.
  intros [Hl Hu] Hn Hd.
  assert (Hp : 0 < 2 ^ n) by (apply Z.pow_pos_nonneg; lia).
  split.
  - apply Z.div_le_lower_bound; [assumption|].
    rewrite <- Z.pow_add_r by lia. replace (n + (d - 1 - n)) with (d - 1) by lia. assumption.
  - apply Z.div_lt_upper_bound; [assumption|].
    rewrite <- Z.pow_add_r by lia. replace (n + (d - n)) with d by lia. assumption.
Qed.

Lemma binary_round_aux_spec s mx ex lx :
  let dg := Zpos (digits2_pos mx) in
  53 <= dg -> -1074 <= dg + ex - 53 -> dg + ex <= 1023 ->
  exists m' e',
    binary_round_aux prec emax s (Zpos mx) ex lx = S754_finite s m' e' /\
    Zpos (digits2_pos m') = 53 /\
    ex + (dg - 53) <= e' <= ex + (dg - 53) + 1 /\
    (IZR (Zpos mx / 2 ^ (dg - 53)) * bpow (ex + (dg - 53))
       <= IZR (Zpos m') * bpow e'
       <= (IZR (Zpos mx / 2 ^ (dg - 53)) + 1) * bpow (ex + (dg - 53)))%R /\
    (lx = loc_Exact -> dg = 53 -> m' = mx /\ e' = ex).
Proof.
  intros dg Hd Hlo Hhi.
  pose proof (digits2_bounds mx) as Hb. fold dg in Hb.
  set (n := dg - 53) in *.
  pose proof (div_pow2_bounds (Zpos mx) dg n Hb ltac:(lia) ltac:(lia)) as Hm1.
  replace (dg - 1 - n) with 52 in Hm1 by lia.
  replace (dg - n) with 53 in Hm1 by lia.
  set (m1 := Zpos mx / 2 ^ n) in *.
  unfold binary_round_aux.
  destruct (shr_fexp_spec (Zpos mx) ex lx ltac:(lia) ltac:(cbn [Zdigits2]; fold dg; lia)
              ltac:(cbn [Zdigits2]; fold dg; lia))
    as (Hs1 & Hs2 & Hs3).
  cbn [Zdigits2] in Hs1, Hs2, Hs3. fold dg in Hs1, Hs2, Hs3. fold n in Hs1, Hs2, Hs3. fold m1 in Hs1.
  destruct (shr_fexp prec emax (Zpos mx) ex lx) as [mrs1 e1]. cbn [fst snd] in Hs1, Hs2, Hs3.
  set (m2 := round_nearest_even (shr_m mrs1) (loc_of_shr_record mrs1)).
  assert (Hm2 : m2 = m1 \/ m2 = m1 + 1)
    by (unfold m2; rewrite <- Hs1; apply round_nearest_even_cases).
  assert (Hex : lx = loc_Exact -> dg = 53 -> m2 = Zpos mx).
  { intros -> Hdg. unfold m2. rewrite Hs3 by lia. reflexivity. }
  clearbody m2. subst e1.
  assert (Hm2pos : 0 < m2) by lia.
  destruct m2 as [|p2|p2]; try lia.
  destruct (Z_lt_le_dec (Zpos p2) (2 ^ 53)) as [Hlt|Hge].
  - (* no carry *)
    assert (Hdg2 : Zpos (digits2_pos p2) = 53) by (apply digits2_unique; simpl Z.sub; lia).
    destruct (shr_fexp_spec (Zpos p2) (ex + n) loc_Exact ltac:(lia)
                ltac:(cbn [Zdigits2]; rewrite Hdg2; lia)
                ltac:(cbn [Zdigits2]; rewrite Hdg2; lia)) as (Ht1 & Ht2 & Ht3).
    cbn [Zdigits2] in Ht1, Ht2, Ht3. rewrite Hdg2 in Ht1, Ht2, Ht3.
    destruct (shr_fexp prec emax (Zpos p2) (ex + n) loc_Exact) as [mrs2 e2].
    cbn [fst snd] in Ht1, Ht2, Ht3. simpl in Ht1. rewrite Z.div_1_r in Ht1.
    rewrite Ht1. subst e2.
    replace (ex + n + (53 - 53) <=? emax - prec) with true
      by (symmetry; apply Z.leb_le; unfold emax, prec; lia).
    exists p2, (ex + n + (53 - 53)). repeat split; try lia.
    + replace (ex + n + (53 - 53)) with (ex + n) by lia.
      apply Rmult_le_compat_r; [left; apply bpow_pos|]. apply IZR_le. lia.
    + replace (ex + n + (53 - 53)) with (ex + n) by lia.
      apply Rmult_le_compat_r; [left; apply bpow_pos|]. rewrite <- plus_IZR. apply IZR_le. lia.
    + specialize (Hex H H0). congruence.
  - (* carry: the rounded mantissa is 2^53 *)
    assert (Hp2 : Zpos p2 = 2 ^ 53) by lia.
    assert (Hdg2 : Zpos (digits2_pos p2) = 54) by (apply digits2_unique; simpl Z.sub; lia).
    destruct (shr_fexp_spec (Zpos p2) (ex + n) loc_Exact ltac:(lia)
                ltac:(cbn [Zdigits2]; rewrite Hdg2; lia)
                ltac:(cbn [Zdigits2]; rewrite Hdg2; lia)) as (Ht1 & Ht2 & Ht3).
    cbn [Zdigits2] in Ht1, Ht2, Ht3. rewrite Hdg2 in Ht1, Ht2, Ht3.
    destruct (shr_fexp prec emax (Zpos p2) (ex + n) loc_Exact) as [mrs2 e2].
    cbn [fst snd] in Ht1, Ht2, Ht3. rewrite Hp2 in Ht1.
    change (2 ^ 53 / 2 ^ (54 - 53)) with (Zpos (2 ^ 52)) in Ht1.
    rewrite Ht1. subst e2.
    replace (ex + n + (54 - 53) <=? emax - prec) with true
      by (symmetry; apply Z.leb_le; unfold emax, prec; lia).
    exists (2 ^ 52)%positive, (ex + n + (54 - 53)). repeat split; try lia.
    + replace (ex + n + (54 - 53)) with (1 + (ex + n)) by lia.
      rewrite (bpow_add 1 (ex + n)), bpow_1, <- Rmult_assoc.
      apply Rmult_le_compat_r; [left; apply bpow_pos|].
      change 2%R with (IZR 2). rewrite <- mult_IZR. apply IZR_le.
      change (Zpos (2 ^ 52) * 2) with (2 ^ 53). lia.
    + replace (ex + n + (54 - 53)) with (1 + (ex + n)) by lia.
      rewrite (bpow_add 1 (ex + n)), bpow_1, <- Rmult_assoc.
      apply Rmult_le_compat_r; [left; apply bpow_pos|].
      change 2%R with (IZR 2). rewrite <- mult_IZR, <- plus_IZR. apply IZR_le.
      change (Zpos (2 ^ 52) * 2) with (2 ^ 53). lia.
    + exfalso. specialize (Hex H H0). assert (Zpos mx < 2 ^ 53) by (rewrite H0 in Hb; lia). lia.
    + exfalso. specialize (Hex H H0). assert (Zpos mx < 2 ^ 53) by (rewrite H0 in Hb; lia). lia.
Qed.


Lemma F2R_pos m e : (0 < F2R m e)%R.
Proof.
  unfold F2R. apply Rmult_lt_0_compat; [apply IZR_lt; lia|apply bpow_pos].
Qed.

Lemma bpow_opp_mul e : (bpow e * bpow (- e) = 1)%R.
Proof. rewrite <- bpow_add. replace (e + - e) with 0 by lia. reflexivity. Qed.

Lemma bpow_opp e : bpow (- e) = (/ bpow e)%R.
Proof.
  pose proof (bpow_pos e).
  apply Rmult_eq_reg_l with (bpow e); [|lra].
  rewrite bpow_opp_mul. field. lra.
Qed.

(** Rounding a mantissa of at least 53 bits in the normal range: the result
    is a 53-bit float within relative distance 2^-52 of the input. *)
Lemma binary_round_aux_rel s mx ex lx :
  let dg := Zpos (digits2_pos mx) in
  53 <= dg -> -1074 <= dg + ex - 53 -> dg + ex <= 1023 ->
  exists m' e',
    binary_round_aux prec emax s (Zpos mx) ex lx = S754_finite s m' e' /\
    Zpos (digits2_pos m') = 53 /\
    dg + ex - 53 <= e' <= dg + ex - 52 /\
    (F2R mx ex * (1 - u52) <= F2R m' e' <= F2R mx ex * (1 + u52))%R /\
    (lx = loc_Exact -> dg = 53 -> m' = mx /\ e' = ex).
Proof.
  intros dg Hd Hlo Hhi.
  destruct (binary_round_aux_spec s mx ex lx Hd Hlo Hhi) as (m' & e' & Hr & Hdg & He & Hv & Hx).
  fold dg in He, Hv, Hx.
  exists m', e'. split; [assumption|]. split; [assumption|]. split; [lia|].
  split; [|assumption]. split.
  all: pose proof (digits2_bounds mx) as [Bl Bu]; fold dg in Bl, Bu.
  all: set (n := dg - 53) in *.
  all: assert (Hp : (0 < 2 ^ n)%Z) by (apply Z.pow_pos_nonneg; lia).
  all: pose proof (Z.mul_div_le (Zpos mx) (2 ^ n) Hp) as Hfl.
  all: pose proof (Z.mul_succ_div_gt (Zpos mx) (2 ^ n) Hp) as Hce.
  all: set (m1 := Zpos mx / 2 ^ n) in *.
  all: apply IZR_le in Hfl; apply IZR_lt in Hce; apply IZR_le in Bl.
  all: rewrite mult_IZR in Hfl, Hce; rewrite succ_IZR in Hce.
  all: rewrite IZR_pow2 in Hfl, Hce, Bl by lia.
  all: replace (dg - 1) with (n + 52) in Bl by (unfold n; lia).
  all: rewrite bpow_add in Bl.
  all: rewrite (bpow_add ex n) in Hv.
  all: pose proof (bpow_pos ex) as Pex; pose proof (bpow_pos n) as Pn.
  all: assert (H52 : (bpow 52 * bpow (-52) = 1)%R) by (rewrite <- bpow_add; reflexivity).
  all: pose proof (bpow_pos 52) as P52.
  all: pose proof (bpow_pos (-52)) as Pm52.
  all: unfold F2R; unfold F2R in Hv; unfold u52.
  all: set (X := IZR (Zpos mx)) in *; set (M1 := IZR m1) in *.
  all: set (bn := bpow n) in *; set (be := bpow ex) in *.
  all: set (b52 := bpow 52) in *; set (bm := bpow (-52)) in *.
  all: assert (Hbn : (bn <= X * bm)%R) by
      (replace bn with (bn * (b52 * bm))%R by (rewrite H52; ring);
       replace (bn * (b52 * bm))%R with ((bn * b52) * bm)%R by ring;
       apply Rmult_le_compat_r; lra).
  all: assert (Hbe : (be * bn <= be * (X * bm))%R) by (apply Rmult_le_compat_l; lra).
  - apply Rle_trans with (M1 * (be * bn))%R; [|apply Hv].
    assert ((X - bn) * be <= M1 * bn * be)%R by (apply Rmult_le_compat_r; lra).
    lra.
  - apply Rle_trans with ((M1 + 1) * (be * bn))%R; [apply Hv|].
    assert (M1 * bn * be <= X * be)%R by (apply Rmult_le_compat_r; lra).
    lra.
Qed.

Lemma iter_xO p d : Zpos (Pos.iter xO p d) = Zpos p * 2 ^ Zpos d.
Proof.
  induction d as [|d IH] using Pos.peano_ind.
  - simpl. lia.
  - rewrite Pos.iter_succ, Pos2Z.inj_xO, IH, Pos2Z.inj_succ, Z.pow_succ_r by lia. ring.
Qed.

Lemma shl_align_le mx ex ex' :
  ex' <= ex ->
  Zpos (fst (shl_align mx ex ex')) = Zpos mx * 2 ^ (ex - ex') /\
  snd (shl_align mx ex ex') = ex'.
Proof.
  intros H. unfold shl_align.
  destruct (ex' - ex) as [|d|d] eqn:E; cbn [fst snd]; try lia.
  - replace (ex - ex') with 0 by lia. simpl. lia.
  - rewrite iter_xO. replace (ex - ex') with (Zpos d) by lia. auto.
Qed.

Lemma shl_align_ge mx ex ex' : ex <= ex' -> shl_align mx ex ex' = (mx, ex).
Proof.
  intros H. unfold shl_align. destruct (ex' - ex) eqn:E; try reflexivity; lia.
Qed.

Lemma F2R_shift m m' e k :
  0 <= k -> Zpos m' = Zpos m * 2 ^ k -> F2R m' (e - k) = F2R m e.
Proof.
  intros Hk Hm. unfold F2R. rewrite Hm, mult_IZR, IZR_pow2 by assumption.
  rewrite Rmult_assoc, <- bpow_add. f_equal. f_equal. lia.
Qed.

Lemma binary_round_spec s mx ex :
  let dg := Zpos (digits2_pos mx) in
  -1074 <= dg + ex - 53 -> dg + ex <= 1023 ->
  exists m' e',
    binary_round prec emax s mx ex = S754_finite s m' e' /\
    Zpos (digits2_pos m') = 53 /\
    dg + ex - 53 <= e' <= dg + ex - 52 /\
    (F2R mx ex * (1 - u52) <= F2R m' e' <= F2R mx ex * (1 + u52))%R /\
    (dg <= 53 -> F2R m' e' = F2R mx ex /\ e' = dg + ex - 53).
Proof.
  intros dg Hlo Hhi. unfold binary_round.
  rewrite fexp_normal by (fold dg; lia). fold dg.
  pose proof (digits2_bounds mx) as Hb. fold dg in Hb.
  assert (Hu : (0 < u52)%R) by apply bpow_pos.
  destruct (Z_lt_le_dec dg 53) as [Hlt|Hge].
  - destruct (shl_align_le mx ex (dg + ex - 53) ltac:(lia)) as [Hm He].
    destruct (shl_align mx ex (dg + ex - 53)) as [mz ez]. cbn [fst snd] in Hm, He. subst ez.
    replace (ex - (dg + ex - 53)) with (53 - dg) in Hm by lia.
    assert (Hdz : Zpos (digits2_pos mz) = 53).
    { apply digits2_unique. rewrite Hm.
      assert (H1 : 2 ^ (53 - 1) = 2 ^ (dg - 1) * 2 ^ (53 - dg))
        by (rewrite <- Z.pow_add_r by lia; f_equal; lia).
      assert (H2 : 2 ^ 53 = 2 ^ dg * 2 ^ (53 - dg))
        by (rewrite <- Z.pow_add_r by lia; f_equal; lia).
      rewrite H1, H2.
      assert (0 < 2 ^ (53 - dg)) by (apply Z.pow_pos_nonneg; lia). nia. }
    destruct (binary_round_aux_rel s mz (dg + ex - 53) loc_Exact) as (m' & e' & Hr & Hd' & He' & Hv & Hx);
      try (rewrite Hdz; lia).
    rewrite Hdz in He', Hx. destruct (Hx eq_refl eq_refl) as [-> ->].
    assert (HF : F2R mz (dg + ex - 53) = F2R mx ex).
    { replace (dg + ex - 53) with (ex - (53 - dg)) by lia. apply F2R_shift; [lia|assumption]. }
    exists mz, (dg + ex - 53). rewrite HF.
    split; [assumption|]. split; [assumption|]. split; [lia|]. split; [|auto].
    pose proof (F2R_pos mx ex). split; nra.
  - rewrite shl_align_ge by lia.
    destruct (binary_round_aux_rel s mx ex loc_Exact) as (m' & e' & Hr & Hd' & He' & Hv & Hx);
      try (fold dg; lia).
    fold dg in He', Hx.
    exists m', e'. split; [assumption|]. split; [assumption|]. split; [lia|]. split; [assumption|].
    intros Hle. destruct (Hx eq_refl ltac:(lia)) as [-> ->]. split; [reflexivity|lia].
Qed.

(** Conversion of a positive integer below 2^53 is exact. *)
Lemma of_int_spec z :
  0 < z < 2 ^ 53 ->
  exists m e,
    binary_normalize prec emax z 0 false = S754_finite false m e /\
    Zpos (digits2_pos m) = 53 /\ -52 <= e <= 0 /\ F2R m e = IZR z.
Proof.
  intros [Hz Hz']. destruct z as [|p|p]; try lia. cbn [binary_normalize].
  pose proof (digits2_bounds p) as [Bl Bu].
  assert (Hd : Zpos (digits2_pos p) <= 53).
  { destruct (Z_lt_le_dec 53 (Zpos (digits2_pos p))); [|assumption].
    assert (2 ^ 53 <= 2 ^ (Zpos (digits2_pos p) - 1)) by (apply Z.pow_le_mono_r; lia). lia. }
  destruct (binary_round_spec false p 0) as (m & e & Hr & Hdm & He & Hv & Hx); try lia.
  destruct (Hx Hd) as [HF He'].
  exists m, e. split; [assumption|]. split; [assumption|]. split; [lia|].
  rewrite HF. unfold F2R, bpow. simpl. ring.
Qed.

Lemma digits2_range p a b :
  0 <= a -> 2 ^ a <= Zpos p < 2 ^ b -> a + 1 <= Zpos (digits2_pos p) <= b.
Proof.
  intros Ha [Hl Hu]. pose proof (digits2_bounds p) as [Bl Bu].
  set (d := Zpos (digits2_pos p)) in *.
  assert (0 < d) by (unfold d; lia).
  split.
  - destruct (Z_lt_le_dec d (a + 1)); [|assumption].
    assert (2 ^ d <= 2 ^ a) by (apply Z.pow_le_mono_r; lia). lia.
  - destruct (Z_lt_le_dec b d); [|assumption].
    destruct (Z_lt_le_dec b 0) as [Hb|Hb].
    + rewrite Z.pow_neg_r in Hu by assumption. lia.
    + assert (2 ^ b <= 2 ^ (d - 1)) by (apply Z.pow_le_mono_r; lia). lia.
Qed.

Lemma digits53_bounds m : Zpos (digits2_pos m) = 53 -> 2 ^ 52 <= Zpos m < 2 ^ 53.
Proof. intros H. pose proof (digits2_bounds m) as Hb. rewrite H in Hb. exact Hb. Qed.

Lemma F2R_mul mx ex my ey : F2R (mx * my) (ex + ey) = (F2R mx ex * F2R my ey)%R.
Proof. unfold F2R. rewrite Pos2Z.inj_mul, mult_IZR, bpow_add. ring. Qed.

Lemma f64_mul_spec mx ex my ey :
  Zpos (digits2_pos mx) = 53 -> Zpos (digits2_pos my) = 53 ->
  -1000 <= ex + ey <= 900 ->
  exists m e,
    SFmul prec emax (S754_finite false mx ex) (S754_finite false my ey) = S754_finite false m e /\
    Zpos (digits2_pos m) = 53 /\
    ex + ey + 52 <= e <= ex + ey + 54 /\
    (F2R mx ex * F2R my ey * (1 - u52) <= F2R m e <= F2R mx ex * F2R my ey * (1 + u52))%R.
Proof.
  intros Hx Hy Hr. cbn [SFmul xorb].
  pose proof (digits53_bounds mx Hx) as Bx. pose proof (digits53_bounds my Hy) as By.
  assert (Hd : 104 + 1 <= Zpos (digits2_pos (mx * my)) <= 106).
  { apply digits2_range; [lia|]. rewrite Pos2Z.inj_mul.
    change (2 ^ 104) with (2 ^ 52 * 2 ^ 52). change (2 ^ 106) with (2 ^ 53 * 2 ^ 53).
    split; nia. }
  destruct (binary_round_aux_rel false (mx * my) (ex + ey) loc_Exact)
    as (m & e & Hres & Hdm & He & Hv & _); try lia.
  exists m, e. rewrite <- F2R_mul. split; [assumption|]. split; [assumption|]. split; [lia|assumption].
Qed.

Lemma f64_add_spec mx ex my ey :
  Zpos (digits2_pos mx) = 53 -> Zpos (digits2_pos my) = 53 ->
  -900 <= ex <= 900 -> -900 <= ey <= 900 ->
  exists m e,
    SFadd prec emax (S754_finite false mx ex) (S754_finite false my ey) = S754_finite false m e /\
    Zpos (digits2_pos m) = 53 /\
    Z.max ex ey <= e <= Z.max ex ey + 2 /\
    ((F2R mx ex + F2R my ey) * (1 - u52) <= F2R m e <= (F2R mx ex + F2R my ey) * (1 + u52))%R.
Proof.
  intros Hx Hy Hrx Hry. cbn [SFadd cond_Zopp].
  pose proof (digits53_bounds mx Hx) as Bx. pose proof (digits53_bounds my Hy) as By.
  set (ez := Z.min ex ey).
  destruct (shl_align_le mx ex ez ltac:(unfold ez; lia)) as [Ha _].
  destruct (shl_align_le my ey ez ltac:(unfold ez; lia)) as [Hb _].
  set (a := fst (shl_align mx ex ez)) in *. set (b := fst (shl_align my ey ez)) in *.
  change (Zpos a + Zpos b) with (Zpos (a + b)). cbn [binary_normalize].
  assert (Pa : 0 < 2 ^ (ex - ez)) by (apply Z.pow_pos_nonneg; unfold ez; lia).
  assert (Pb : 0 < 2 ^ (ey - ez)) by (apply Z.pow_pos_nonneg; unfold ez; lia).
  set (k := Z.max ex ey - ez).
  assert (Hk : 0 <= k) by (unfold k, ez; lia).
  assert (Hd : 52 + k + 1 <= Zpos (digits2_pos (a + b)) <= 54 + k).
  { apply digits2_range; [lia|]. rewrite Pos2Z.inj_add, Ha, Hb.
    rewrite (Z.pow_add_r 2 52 k), (Z.pow_add_r 2 54 k) by lia.
    change (2 ^ 54) with (2 * 2 ^ 53).
    assert (Pk : 0 < 2 ^ k) by (apply Z.pow_pos_nonneg; lia).
    destruct (Z_le_gt_dec ex ey) as [Hle|Hgt].
    - assert (ex - ez = 0) as -> by (unfold ez; lia).
      assert (ey - ez = k) as -> by (unfold k, ez; lia).
      change (2 ^ 0) with 1. nia.
    - assert (ey - ez = 0) as -> by (unfold ez; lia).
      assert (ex - ez = k) as -> by (unfold k, ez; lia).
      change (2 ^ 0) with 1. nia. }
  destruct (binary_round_spec false (a + b) ez) as (m & e & Hres & Hdm & He & Hv & _);
    try (unfold k, ez in *; lia).
  exists m, e. split; [assumption|]. split; [assumption|]. split; [unfold k, ez in *; lia|].
  assert (HF : F2R (a + b) ez = (F2R mx ex + F2R my ey)%R).
  { rewrite <- (F2R_shift mx a ex (ex - ez)), <- (F2R_shift my b ey (ey - ez));
      try assumption; try (unfold ez; lia).
    replace (ex - (ex - ez)) with ez by lia. replace (ey - (ey - ez)) with ez by lia.
    unfold F2R. rewrite Pos2Z.inj_add, plus_IZR. ring. }
  rewrite <- HF. assumption.
Qed.

Lemma f64_div_spec mx ex my ey :
  Zpos (digits2_pos mx) = 53 -> Zpos (digits2_pos my) = 53 ->
  -900 <= ex - ey <= 900 ->
  exists m e,
    SFdiv prec emax (S754_finite false mx ex) (S754_finite false my ey) = S754_finite false m e /\
    Zpos (digits2_pos m) = 53 /\
    ex - ey - 53 <= e <= ex - ey - 51 /\
    (F2R mx ex / F2R my ey * (1 - 2 * u52) <= F2R m e <= F2R mx ex / F2R my ey * (1 + u52))%R.
Proof.
  intros Hx Hy Hr. cbn [SFdiv xorb]. unfold SFdiv_core_binary. cbn [Zdigits2].
  rewrite Hx, Hy.
  replace (53 + ex - (53 + ey)) with (ex - ey) by lia.
  rewrite fexp_normal by lia.
  replace (Z.min (ex - ey - 53) (ex - ey)) with (ex - ey - 53) by lia.
  replace (ex - ey - (ex - ey - 53)) with 53 by lia.
  rewrite Z.shiftl_mul_pow2 by lia.
  pose proof (digits53_bounds mx Hx) as Bx. pose proof (digits53_bounds my Hy) as By.
  pose proof (Z_div_mod (Zpos mx * 2 ^ 53) (Zpos my) ltac:(lia)) as Hdm.
  destruct (Z.div_eucl (Zpos mx * 2 ^ 53) (Zpos my)) as [q r]. destruct Hdm as [Hq Hrr].
  assert (Hqb : 2 ^ 52 <= q < 2 ^ 54).
  { change (2 ^ 54) with (2 * 2 ^ 53). split; nia. }
  destruct q as [|pq|pq]; try lia.
  assert (Hd : 52 + 1 <= Zpos (digits2_pos pq) <= 54) by (apply digits2_range; lia).
  destruct (binary_round_aux_rel false pq (ex - ey - 53) (new_location (Zpos my) r))
    as (m & e & Hres & Hdg & He & Hv & _); try lia.
  exists m, e. split; [assumption|]. split; [assumption|]. split; [lia|].
  (* the exact quotient lies between q and q+1 at exponent ex - ey - 53 *)
  pose proof (F2R_pos mx ex) as Px. pose proof (F2R_pos my ey) as Py.
  set (Q := (F2R mx ex / F2R my ey)%R).
  assert (HQ : (F2R pq (ex - ey - 53) <= Q < F2R pq (ex - ey - 53) + bpow (ex - ey - 53))%R).
  { assert (E : (Q * (IZR (Zpos my)) = IZR (Zpos mx * 2 ^ 53) * bpow (ex - ey - 53))%R).
    { unfold Q, F2R. rewrite mult_IZR, IZR_pow2 by lia.
      replace (ex - ey - 53) with (ex + (- ey + - (53))) by lia.
      rewrite !bpow_add, !bpow_opp.
      pose proof (bpow_pos ey). pose proof (bpow_pos 53).
      assert (0 < IZR (Zpos my))%R by (apply IZR_lt; lia).
      field. repeat split; lra. }
    rewrite Hq, plus_IZR, mult_IZR in E.
    assert (0 < IZR (Zpos my))%R by (apply IZR_lt; lia).
    assert (0 <= IZR r < IZR (Zpos my))%R by (split; [apply IZR_le|apply IZR_lt]; lia).
    pose proof (bpow_pos (ex - ey - 53)) as Pb.
    unfold F2R at 1 2. set (B := bpow (ex - ey - 53)) in *.
    set (Y := IZR (Zpos my)) in *. set (Pq := IZR (Zpos pq)) in *.
    split.
    - apply Rmult_le_reg_r with Y; [assumption|]. rewrite E.
      assert (0 <= IZR r * B)%R by (apply Rmult_le_pos; lra). lra.
    - apply Rmult_lt_reg_r with Y; [assumption|]. rewrite E.
      assert (IZR r * B < Y * B)%R by (apply Rmult_lt_compat_r; lra). lra. }
  assert (Hb : (bpow (ex - ey - 53) <= F2R pq (ex - ey - 53) * u52)%R).
  { unfold F2R, u52. assert (Hq52 : (IZR (2 ^ 52) <= IZR (Zpos pq))%R) by (apply IZR_le; lia).
    rewrite IZR_pow2 in Hq52 by lia.
    pose proof (bpow_pos (ex - ey - 53)). pose proof (bpow_pos (-52)).
    assert (bpow 52 * bpow (-52) = 1)%R by (rewrite <- bpow_add; reflexivity).
    replace (bpow (ex - ey - 53)) with (bpow 52 * bpow (ex - ey - 53) * bpow (-52))%R at 1
      by (replace (bpow 52 * bpow (ex - ey - 53) * bpow (-52))%R
            with (bpow (ex - ey - 53) * (bpow 52 * bpow (-52)))%R by ring; rewrite H1; ring).
    apply Rmult_le_compat_r; [lra|]. apply Rmult_le_compat_r; lra. }
  assert (Hu : (0 < u52 < 1)%R).
  { unfold u52, bpow. simpl. lra. }
  pose proof (F2R_pos pq (ex - ey - 53)) as Ppq.
  set (V := F2R pq (ex - ey - 53)) in *. set (B := bpow (ex - ey - 53)) in *.
  split.
  - apply Rle_trans with (V * (1 - u52))%R; [|apply Hv].
    assert (Q * (1 - u52) <= V)%R by nra.
    nra.
  - apply Rle_trans with (V * (1 + u52))%R; [apply Hv|]. nra.
Qed.

Lemma f64_trunc_spec m e :
  exists a, Float64.trunc (S754_finite false m e) = Some a /\ 0 <= a /\
            (IZR a <= F2R m e < IZR a + 1)%R.
Proof.
  unfold Float64.trunc, F2R. destruct e as [|p|p].
  - exists (Zpos m). split; [reflexivity|]. split; [lia|]. unfold bpow; simpl. lra.
  - exists (Zpos m * 2 ^ Zpos p). split; [reflexivity|].
    assert (0 < 2 ^ Zpos p) by (apply Z.pow_pos_nonneg; lia).
    split; [nia|]. rewrite mult_IZR, IZR_pow2 by lia. lra.
  - exists (Zpos m / 2 ^ Zpos p). split; [reflexivity|].
    assert (Hp : 0 < 2 ^ Zpos p) by (apply Z.pow_pos_nonneg; lia).
    split; [apply Z.div_pos; lia|].
    pose proof (Z.mul_div_le (Zpos m) _ Hp) as Hfl.
    pose proof (Z.mul_succ_div_gt (Zpos m) _ Hp) as Hce.
    apply IZR_le in Hfl. apply IZR_lt in Hce.
    rewrite mult_IZR in Hfl, Hce. rewrite succ_IZR in Hce. rewrite IZR_pow2 in Hfl, Hce by lia.
    change (Zneg p) with (- Zpos p). rewrite bpow_opp.
    pose proof (bpow_pos (Zpos p)) as Pb.
    set (B := bpow (Zpos p)) in *. set (A := IZR (Zpos m / 2 ^ Zpos p)) in *.
    set (M := IZR (Zpos m)) in *.
    split.
    + apply Rmult_le_reg_r with B; [assumption|]. field_simplify; lra.
    + apply Rmult_lt_reg_r with B; [assumption|]. field_simplify; lra.
Qed.

Lemma f64_1e9_eq : Float64.f1e9 = S754_finite false 8388608000000000 (-23).
Proof. reflexivity. Qed.

Lemma F2R_1e9 : F2R 8388608000000000 (-23) = 1000000000%R.
Proof. unfold F2R, bpow. simpl. lra. Qed.

Lemma f64_1_2_eq : Float64.f1_2 = S754_finite false 5404319552844595 (-52).
Proof. reflexivity. Qed.

Lemma F2R_1_2 : ((6 / 5) * (1 - u52) <= F2R 5404319552844595 (-52) <= (6 / 5))%R.
Proof. unfold F2R, u52, bpow. simpl. lra. Qed.

Lemma u52_small : (0 < u52 < 1 / 1000000000000000)%R.
Proof. unfold u52, bpow. simpl. lra. Qed.

Lemma Seconds_spec d :
  0 < d < 2 ^ 63 ->
  exists m e,
    Seconds d = S754_finite false m e /\
    Zpos (digits2_pos m) = 53 /\ -110 <= e <= 2 /\
    (IZR d / 1000000000 * (1 - 4 * u52) <= F2R m e <= IZR d / 1000000000 * (1 + 4 * u52))%R /\
    (Z.rem d Second = 0 -> F2R m e = IZR (Z.quot d Second)).
Proof.
  intros [Hd0 Hd1]. unfold Seconds.
  rewrite Z.quot_div_nonneg, Z.rem_mod_nonneg by (unfold Second; lia).
  pose proof (Z.div_mod d Second ltac:(unfold Second; lia)) as Hdm.
  pose proof (Z.mod_pos_bound d Second ltac:(unfold Second; lia)) as Hmb.
  set (sec := d / Second) in *. set (nsec := d mod Second) in *.
  assert (Hsec : 0 <= sec < 2 ^ 53) by (unfold Second in *; lia).
  assert (HR : IZR d = (1000000000 * IZR sec + IZR nsec)%R)
    by (rewrite Hdm, plus_IZR, mult_IZR; reflexivity).
  pose proof u52_small as Hu.
  assert (Hs0 : (0 <= IZR sec)%R) by (apply IZR_le; lia).
  assert (Hn0 : (0 <= IZR nsec)%R) by (apply IZR_le; lia).
  rewrite f64_1e9_eq.
  destruct (Z.eq_dec nsec 0) as [Hn|Hn].
  - (* whole seconds: the fraction is +0 and the sum is exact *)
    rewrite Hn. cbn [Float64.of_int binary_normalize Float64.div SFdiv xorb].
    assert (Hs : 0 < sec < 2 ^ 53) by lia.
    destruct (of_int_spec sec Hs) as (m & e & Hr & Hdg & He & Hv).
    unfold Float64.of_int. rewrite Hr. cbn [Float64.add SFadd].
    exists m, e. split; [reflexivity|]. split; [assumption|]. split; [lia|].
    rewrite Hv, HR, Hn. split; [|reflexivity]. split; nra.
  - assert (Hn' : 0 < nsec < 2 ^ 53) by (unfold Second in *; lia).
    destruct (of_int_spec nsec Hn') as (mn & en & Hrn & Hdn & Hen & Hvn).
    destruct (f64_div_spec mn en 8388608000000000 (-23) Hdn eq_refl ltac:(lia))
      as (my & ey & Hry & Hdy & Hey & Hvy).
    rewrite F2R_1e9, Hvn in Hvy.
    unfold Float64.of_int at 2. rewrite Hrn. unfold Float64.div. rewrite Hry.
    assert (Hn1 : (1 <= IZR nsec)%R) by (apply IZR_le; lia).
    destruct (Z.eq_dec sec 0) as [Hs|Hs].
    + rewrite Hs. cbn [Float64.of_int binary_normalize Float64.add SFadd].
      exists my, ey. split; [reflexivity|]. split; [assumption|]. split; [lia|].
      rewrite HR, Hs. split; [|intros; lia].
      replace ((1000000000 * 0 + IZR nsec) / 1000000000)%R with (IZR nsec / 1000000000)%R by (field).
      assert (0 < IZR nsec / 1000000000)%R by lra.
      split; nra.
    + assert (Hs' : 0 < sec < 2 ^ 53) by lia.
      destruct (of_int_spec sec Hs') as (mx & ex & Hrx & Hdx & Hex & Hvx).
      unfold Float64.of_int. rewrite Hrx.
      destruct (f64_add_spec mx ex my ey Hdx Hdy ltac:(lia) ltac:(lia))
        as (m & e & Hr & Hdg & He & Hv).
      rewrite Hvx in Hv. unfold Float64.add. rewrite Hr.
      exists m, e. split; [reflexivity|]. split; [assumption|]. split; [lia|].
      split; [|intros; lia].
      rewrite HR.
      replace ((1000000000 * IZR sec + IZR nsec) / 1000000000)%R
        with (IZR sec + IZR nsec / 1000000000)%R by field.
      set (N := (IZR nsec / 1000000000)%R) in *.
      assert (0 < N)%R by (unfold N; lra).
      assert (1 <= IZR sec)%R by (apply IZR_le; lia).
      set (Y := F2R my ey) in *. set (V := F2R m e) in *.
      split.
      * apply Rle_trans with ((IZR sec + Y) * (1 - u52))%R; [|apply Hv]. nra.
      * apply Rle_trans with ((IZR sec + Y) * (1 + u52))%R; [apply Hv|]. nra.
Qed.

Lemma f64_to_int64_pos m e a :
  Float64.trunc (S754_finite false m e) = Some a -> 0 <= a < 2 ^ 63 ->
  Float64.to_int64 (S754_finite false m e) = a.
Proof.
  intros Ht Ha. unfold Float64.to_int64. rewrite Ht.
  replace (min_int64 <=? a) with true by (symmetry; apply Z.leb_le; unfold min_int64; lia).
  replace (a <=? max_int64) with true by (symmetry; apply Z.leb_le; unfold max_int64; lia).
  reflexivity.
Qed.

Lemma Seconds_whole k :
  0 <= k -> k * Second < 2 ^ 63 -> Float64.to_int64 (Seconds (k * Second)) = k.
Proof.
  intros Hk Hb. destruct (Z.eq_dec k 0) as [->|Hk0]; [reflexivity|].
  destruct (Seconds_spec (k * Second) ltac:(unfold Second in *; lia))
    as (m & e & Hr & Hdg & He & Hv & Hx).
  rewrite Z.rem_mul, Z.quot_mul in Hx by (unfold Second; lia).
  specialize (Hx eq_refl).
  destruct (f64_trunc_spec m e) as (a & Ht & Ha & Hab). rewrite Hx in Hab.
  assert (a = k).
  { destruct Hab as [H1 H2]. apply le_IZR in H1. rewrite <- plus_IZR in H2. apply lt_IZR in H2. lia. }
  subst a. rewrite Hr. apply f64_to_int64_pos; [assumption|unfold Second in *; lia].
Qed.

Lemma stepSeconds_bounds d :
  Second <= d < 2 ^ 63 -> 1 <= Float64.to_int64 (Seconds d) <= 2 ^ 34.
Proof.
  intros [Hd0 Hd1].
  destruct (Seconds_spec d ltac:(unfold Second in *; lia))
    as (m & e & Hr & Hdg & He & Hv & Hx).
  destruct (f64_trunc_spec m e) as (a & Ht & Ha & Hab).
  pose proof u52_small as Hu.
  assert (HD : (1000000000 <= IZR d <= 9223372036854775808)%R).
  { split; [apply (IZR_le Second d); assumption|apply (IZR_le d (2 ^ 63)); lia]. }
  set (D := IZR d) in *. set (V := F2R m e) in *.
  assert (Hhi : a <= 2 ^ 34).
  { apply le_IZR. apply Rle_trans with V; [apply Hab|].
    apply Rle_trans with (D / 1000000000 * (1 + 4 * u52))%R; [apply Hv|].
    change (2 ^ 34) with 17179869184. nra. }
  assert (Hlo : 1 <= a).
  { assert (1 <= V)%R.
    { destruct (Z.eq_dec (Z.rem d Second) 0) as [Hz|Hz].
      - rewrite (Hx Hz). apply IZR_le.
        rewrite Z.quot_div_nonneg by (unfold Second in *; lia).
        apply Z.div_le_lower_bound; unfold Second in *; lia.
      - assert (Second + 1 <= d).
        { destruct (Z.eq_dec d Second) as [->|]; [|lia]. rewrite Z.rem_same in Hz by (unfold Second; lia). lia. }
        assert (1000000001 <= D)%R by (apply (IZR_le (Second + 1) d); assumption).
        apply Rle_trans with (D / 1000000000 * (1 - 4 * u52))%R; [|apply Hv]. nra. }
    destruct Hab as [_ H2]. rewrite <- plus_IZR in H2.
    assert (IZR 1 < IZR (a + 1))%R by lra. apply lt_IZR in H0. lia. }
  rewrite Hr. rewrite (f64_to_int64_pos m e a Ht); [lia|]. change (2 ^ 63) with 9223372036854775808.
  change (2 ^ 34) with 17179869184 in Hhi. lia.
Qed.

Lemma mul12_bounds d :
  0 <= d <= 7686143364 * Second ->
  let k := Float64.to_int64 (Float64.mul (Seconds d) Float64.f1_2) in
  0 <= k <= 9223372036 /\
  5000000000 * k - 300000 <= 6 * d < 5000000000 * (k + 1) + 300000.
Proof.
  intros [Hd0 Hd1]. destruct (Z.eq_dec d 0) as [->|Hd]; [vm_compute; repeat split; congruence|].
  destruct (Seconds_spec d ltac:(unfold Second in *; lia))
    as (m & e & Hr & Hdg & He & Hv & _).
  rewrite Hr, f64_1_2_eq.
  destruct (f64_mul_spec m e 5404319552844595 (-52) Hdg eq_refl ltac:(lia))
    as (m' & e' & Hr' & Hdg' & He' & Hv').
  unfold Float64.mul. rewrite Hr'. cbv zeta.
  destruct (f64_trunc_spec m' e') as (a & Ht & Ha & Hab).
  pose proof u52_small as Hu. pose proof F2R_1_2 as Hc.
  assert (HD : (1 <= IZR d <= 7686143364000000000)%R).
  { split; [apply (IZR_le 1 d); lia|apply (IZR_le d (7686143364 * Second)); assumption]. }
  set (D := IZR d) in *. set (S := F2R m e) in *. set (C := F2R 5404319552844595 (-52)) in *.
  set (V := F2R m' e') in *.
  assert (HS : (0 < S)%R) by apply F2R_pos.
  assert (HC : (0 < C)%R) by apply F2R_pos.
  assert (HDu : (D * u52 <= 7687)%R).
  { apply Rle_trans with (7686143364000000000 * (1 / 1000000000000000))%R; [|lra].
    apply Rmult_le_compat; lra. }
  assert (Hlo : (6 * D * (1 - 6 * u52) <= 5000000000 * V)%R).
  { apply Rle_trans with (5000000000 * (S * C * (1 - u52)))%R; [|lra].
    assert (T : (1 - 6 * u52 <= (1 - 4 * u52) * ((1 - u52) * (1 - u52)))%R) by nra.
    assert (P : (D / 1000000000 * (1 - 4 * u52) * ((6 / 5) * (1 - u52)) <= S * C)%R)
      by (apply Rmult_le_compat; nra).
    apply Rle_trans with (6 * D * ((1 - 4 * u52) * ((1 - u52) * (1 - u52))))%R.
    - apply Rmult_le_compat_l; lra.
    - replace (6 * D * ((1 - 4 * u52) * ((1 - u52) * (1 - u52))))%R
        with (5000000000 * (D / 1000000000 * (1 - 4 * u52) * ((6 / 5) * (1 - u52)) * (1 - u52)))%R
        by field.
      apply Rmult_le_compat_l; [lra|]. apply Rmult_le_compat_r; lra. }
  assert (Hhi : (5000000000 * V <= 6 * D * (1 + 6 * u52))%R).
  { apply Rle_trans with (5000000000 * (S * C * (1 + u52)))%R; [lra|].
    assert (T : ((1 + 4 * u52) * (1 + u52) <= 1 + 6 * u52)%R) by nra.
    assert (P : (S * C <= D / 1000000000 * (1 + 4 * u52) * (6 / 5))%R)
      by (apply Rmult_le_compat; nra).
    apply Rle_trans with (6 * D * ((1 + 4 * u52) * (1 + u52)))%R.
    - replace (6 * D * ((1 + 4 * u52) * (1 + u52)))%R
        with (5000000000 * (D / 1000000000 * (1 + 4 * u52) * (6 / 5) * (1 + u52)))%R by field.
      apply Rmult_le_compat_l; [lra|]. apply Rmult_le_compat_r; lra.
    - apply Rmult_le_compat_l; lra. }
  assert (Hk1 : 5000000000 * a - 300000 <= 6 * d).
  { apply le_IZR. rewrite minus_IZR, !mult_IZR. fold D. lra. }
  assert (Hk2 : 6 * d < 5000000000 * (a + 1) + 300000).
  { apply lt_IZR. rewrite plus_IZR, !mult_IZR, plus_IZR. fold D. lra. }
  rewrite (f64_to_int64_pos m' e' a Ht); unfold Second in *; lia.
Qed.

End Float64Facts.

(** ** Exact rounding

    Rounding to nearest: a 54- to 106-bit product within half a unit of a
    53-bit value rounds to it; negation commutes with the conversions. *)

Module Float64Nearest.

Import Float64 Float64Facts.

(** The record of [shr] read as a number: twice the mantissa plus the round
    bit; one shift halves it and folds the lost bit into the sticky bit. *)
Lemma shr_1_value r :
  0 <= shr_m r ->
  2 * shr_m (shr_1 r) + Z.b2z (shr_r (shr_1 r)) = shr_m r /\
  shr_s (shr_1 r) = shr_r r || shr_s r /\
  0 <= shr_m (shr_1 r).
Proof.
  destruct r as [m r s]; cbn [shr_m shr_r shr_s]. intros H.
  destruct m as [|p|p]; [cbn; auto| |lia].
  destruct p; cbn; repeat split; lia.
Qed.

Lemma sticky_compose v a b :
  0 <= v -> 0 < a -> 0 < b ->
  negb (v mod 2 ^ (a + b) =? 0)
    = negb (v mod 2 ^ a =? 0) || negb ((v / 2 ^ a) mod 2 ^ b =? 0).
Proof.
  intros Hv Ha Hb.
  assert (Pa : 0 < 2 ^ a) by (apply Z.pow_pos_nonneg; lia).
  assert (Pb : 0 < 2 ^ b) by (apply Z.pow_pos_nonneg; lia).
  rewrite Z.pow_add_r, Z.rem_mul_r by lia.
  pose proof (Z.mod_pos_bound v (2 ^ a) Pa) as B1.
  pose proof (Z.mod_pos_bound (v / 2 ^ a) (2 ^ b) Pb) as B2.
  destruct (Z.eqb_spec (v mod 2 ^ a) 0) as [E1|E1];
    destruct (Z.eqb_spec ((v / 2 ^ a) mod 2 ^ b) 0) as [E2|E2]; cbn;
    destruct (Z.eqb_spec (v mod 2 ^ a + 2 ^ a * ((v / 2 ^ a) mod 2 ^ b)) 0) as [E|E];
    try reflexivity; exfalso; nia.
Qed.

Lemma shr_iter_value p : forall r,
  0 <= shr_m r ->
  let r' := SpecFloat.iter_pos shr_1 p r in
  2 * shr_m r' + Z.b2z (shr_r r') = (2 * shr_m r + Z.b2z (shr_r r)) / 2 ^ Zpos p /\
  shr_s r' = shr_s r || negb ((2 * shr_m r + Z.b2z (shr_r r)) mod 2 ^ Zpos p =? 0) /\
  0 <= shr_m r'.
Proof.
  assert (Hone : forall r, 0 <= shr_m r ->
            2 * shr_m (shr_1 r) + Z.b2z (shr_r (shr_1 r))
              = (2 * shr_m r + Z.b2z (shr_r r)) / 2 ^ 1 /\
            shr_s (shr_1 r)
              = shr_s r || negb ((2 * shr_m r + Z.b2z (shr_r r)) mod 2 ^ 1 =? 0) /\
            0 <= shr_m (shr_1 r)).
  { intros r Hr. destruct (shr_1_value r Hr) as (H1 & H2 & H3).
    change (2 ^ 1) with 2. rewrite H1, H2.
    assert (Hb : 0 <= Z.b2z (shr_r r) <= 1) by (destruct (shr_r r); cbn [Z.b2z]; lia).
    split; [apply Z.div_unique with (Z.b2z (shr_r r)); lia|].
    split; [|assumption].
    replace ((2 * shr_m r + Z.b2z (shr_r r)) mod 2) with (Z.b2z (shr_r r))
      by (apply Z.mod_unique with (shr_m r); lia).
    destruct (shr_r r), (shr_s r); reflexivity. }
  assert (Hcomp : forall a b r0 r1 r2, 0 < a -> 0 < b -> 0 <= shr_m r0 ->
            (2 * shr_m r1 + Z.b2z (shr_r r1) = (2 * shr_m r0 + Z.b2z (shr_r r0)) / 2 ^ a /\
             shr_s r1 = shr_s r0 || negb ((2 * shr_m r0 + Z.b2z (shr_r r0)) mod 2 ^ a =? 0) /\
             0 <= shr_m r1) ->
            (2 * shr_m r2 + Z.b2z (shr_r r2) = (2 * shr_m r1 + Z.b2z (shr_r r1)) / 2 ^ b /\
             shr_s r2 = shr_s r1 || negb ((2 * shr_m r1 + Z.b2z (shr_r r1)) mod 2 ^ b =? 0) /\
             0 <= shr_m r2) ->
            2 * shr_m r2 + Z.b2z (shr_r r2)
              = (2 * shr_m r0 + Z.b2z (shr_r r0)) / 2 ^ (a + b) /\
            shr_s r2
              = shr_s r0 || negb ((2 * shr_m r0 + Z.b2z (shr_r r0)) mod 2 ^ (a + b) =? 0) /\
            0 <= shr_m r2).
  { intros a b r0 r1 r2 Ha Hb H0 (A1 & A2 & A3) (B1 & B2 & B3).
    assert (Hv : 0 <= 2 * shr_m r0 + Z.b2z (shr_r r0)) by (destruct (shr_r r0); cbn [Z.b2z]; lia).
    rewrite B1, B2, A1, A2. split; [|split; [|assumption]].
    - rewrite Z.pow_add_r, Z.div_div by (try apply Z.pow_pos_nonneg; lia). reflexivity.
    - rewrite sticky_compose by assumption. rewrite orb_assoc. reflexivity. }
  induction p as [p IH|p IH|]; intros r Hr; cbn [SpecFloat.iter_pos].
  - pose proof (Hone r Hr) as H1.
    pose proof (IH (shr_1 r) (proj2 (proj2 H1))) as H2. cbv zeta in H2.
    pose proof (IH _ (proj2 (proj2 H2))) as H3. cbv zeta in H3.
    pose proof (Hcomp 1 (Zpos p) _ _ _ ltac:(lia) ltac:(lia) Hr H1 H2) as H12.
    pose proof (Hcomp (1 + Zpos p) (Zpos p) _ _ _ ltac:(lia) ltac:(lia) Hr H12 H3) as H123.
    replace (Zpos p~1) with (1 + Zpos p + Zpos p) by lia. exact H123.
  - pose proof (IH r Hr) as H2. cbv zeta in H2.
    pose proof (IH _ (proj2 (proj2 H2))) as H3. cbv zeta in H3.
    pose proof (Hcomp (Zpos p) (Zpos p) _ _ _ ltac:(lia) ltac:(lia) Hr H2 H3) as H23.
    replace (Zpos p~0) with (Zpos p + Zpos p) by lia. exact H23.
  - exact (Hone r Hr).
Qed.

(** Shifting an exact mantissa right and rounding to nearest even moves it
    by at most half a unit of the new last place. *)
Lemma shr_nearest m p :
  0 <= m ->
  let r' := SpecFloat.iter_pos shr_1 p (Build_shr_record m false false) in
  2 * Z.abs (m - round_nearest_even (shr_m r') (loc_of_shr_record r') * 2 ^ Zpos p)
    <= 2 ^ Zpos p.
Proof.
  intros Hm r'.
  destruct (shr_iter_value p (Build_shr_record m false false) Hm) as (HV & HS & HM).
  fold r' in HV, HS, HM. cbn [shr_m shr_r shr_s Z.b2z orb] in HV, HS.
  rewrite Z.add_0_r in HV, HS.
  set (h := 2 ^ (Zpos p - 1)).
  assert (Ph : 0 < h) by (apply Z.pow_pos_nonneg; lia).
  assert (E2 : 2 ^ Zpos p = 2 * h).
  { unfold h. rewrite <- (Z.pow_succ_r 2 (Zpos p - 1)) by lia. f_equal. lia. }
  rewrite E2 in *.
  rewrite Z.div_mul_cancel_l in HV by lia.
  rewrite Z.mul_mod_distr_l in HS by lia.
  pose proof (Z.div_mod m h ltac:(lia)) as Hdm.
  pose proof (Z.mod_pos_bound m h Ph) as Hmb.
  set (t := m / h) in *. set (sg := m mod h) in *.
  destruct r' as [m' b s']. cbn [shr_m shr_r shr_s] in *.
  destruct b, s'; cbn [loc_of_shr_record round_nearest_even Z.b2z] in *.
  - (* above the middle: up *)
    destruct (Z.eqb_spec (2 * sg) 0); [discriminate|]. nia.
  - (* the middle: either neighbour *)
    destruct (Z.eqb_spec (2 * sg) 0); [|discriminate].
    destruct (Z.even m'); nia.
  - (* below the middle: down *)
    destruct (Z.eqb_spec (2 * sg) 0); [discriminate|]. nia.
  - (* exact *)
    destruct (Z.eqb_spec (2 * sg) 0); [|discriminate]. nia.
Qed.

(** Rounding an exact mantissa that lies less than half a unit below a
    53-bit mantissa [A] gives [A]. *)
Lemma binary_round_aux_near s mx ex A n d :
  1 <= n -> Zpos (digits2_pos mx) = 53 + n ->
  -1074 <= ex + n <= 971 ->
  Zpos mx = Zpos A * 2 ^ n - d -> 0 <= d -> 2 * d < 2 ^ n -> Zpos A < 2 ^ 53 ->
  binary_round_aux prec emax s (Zpos mx) ex loc_Exact = S754_finite s A (ex + n).
Proof.
  intros Hn Hdg Hr HA Hd0 Hd HA53.
  pose proof (digits2_bounds mx) as Hb. rewrite Hdg in Hb.
  replace (53 + n - 1) with (52 + n) in Hb by lia.
  rewrite !Z.pow_add_r in Hb by lia.
  assert (Pn : 0 < 2 ^ n) by (apply Z.pow_pos_nonneg; lia).
  assert (HA52 : 2 ^ 52 <= Zpos A) by nia.
  unfold binary_round_aux, shr_fexp at 1. cbn [Zdigits2]. rewrite Hdg.
  rewrite fexp_normal by lia.
  replace (53 + n + ex - 53 - ex) with n by lia.
  destruct n as [|pn|pn]; try lia. cbn [shr shr_record_of_loc].
  pose proof (shr_nearest (Zpos mx) pn ltac:(lia)) as Hnear. cbv zeta in Hnear.
  set (r1 := SpecFloat.iter_pos shr_1 pn _) in *.
  set (m2 := round_nearest_even (shr_m r1) (loc_of_shr_record r1)) in *.
  assert (Hm2 : m2 = Zpos A) by nia.
  rewrite Hm2.
  assert (HdA : Zpos (digits2_pos A) = 53) by (apply digits2_unique; simpl Z.sub; lia).
  destruct (shr_fexp_spec (Zpos A) (ex + Zpos pn) loc_Exact ltac:(lia)
              ltac:(cbn [Zdigits2]; rewrite HdA; lia)
              ltac:(cbn [Zdigits2]; rewrite HdA; lia)) as (_ & Ht2 & Ht3).
  cbn [Zdigits2] in Ht2, Ht3. rewrite HdA in Ht2, Ht3.
  specialize (Ht3 eq_refl).
  destruct (shr_fexp prec emax (Zpos A) (ex + Zpos pn) loc_Exact) as [r2 e2].
  cbn [fst snd] in Ht2, Ht3. subst r2 e2. cbn [shr_m shr_record_of_loc].
  replace (ex + Zpos pn + (53 - 53) <=? emax - prec) with true
    by (symmetry; apply Z.leb_le; unfold emax, prec; lia).
  f_equal. lia.
Qed.

Lemma pow2_mod3 e : 0 <= e -> 2 ^ e mod 3 <> 0.
Proof.
  intros He. pattern e. apply natlike_ind; [cbn; lia| |assumption].
  intros x Hx IH. rewrite Z.pow_succ_r by assumption.
  rewrite <- Z.mul_mod_idemp_r by lia.
  pose proof (Z.mod_pos_bound (2 ^ x) 3 ltac:(lia)) as Hb.
  assert (C : 2 ^ x mod 3 = 1 \/ 2 ^ x mod 3 = 2) by lia.
  destruct C as [-> | ->]; cbn; lia.
Qed.

(** The float of a positive integer below [2^53]: the integer shifted left
    to 53 bits. *)
Lemma of_int_mantissa z :
  0 < z < 2 ^ 53 ->
  exists m k,
    of_int z = S754_finite false m (- k) /\ 0 <= k <= 52 /\
    Zpos m = z * 2 ^ k /\ Zpos (digits2_pos m) = 53.
Proof.
  intros Hz. destruct (of_int_spec z Hz) as (m & e & Hr & Hdg & He & Hv).
  exists m, (- e). rewrite Z.opp_involutive. unfold of_int.
  split; [assumption|]. split; [lia|]. split; [|assumption].
  apply eq_IZR. rewrite mult_IZR, IZR_pow2 by lia. rewrite <- Hv. unfold F2R.
  rewrite Rmult_assoc, <- bpow_add. replace (e + - e) with 0 by lia.
  unfold bpow. cbn. ring.
Qed.

Lemma Seconds_whole_eq T :
  0 < T < 2 ^ 53 -> Seconds (T * Second) = of_int T.
Proof.
  intros HT. unfold Seconds.
  rewrite Z.quot_mul, Z.rem_mul by (unfold Second; lia).
  change (Float64.div (of_int 0) f1e9) with (S754_zero false).
  destruct (of_int_spec T HT) as (m & e & Hr & _). unfold of_int. rewrite Hr. reflexivity.
Qed.

(** For an interval of [5 j] seconds the product with the float [1.2] --
    which is a little below 6/5 -- rounds to exactly [6 j]. *)
Lemma mul12_exact j :
  1 <= j -> 5 * j <= 7686143364 ->
  to_int64 (Float64.mul (Seconds (5 * j * Second)) f1_2) = 6 * j.
Proof.
  intros Hj1 Hj2.
  rewrite Seconds_whole_eq by (change (2 ^ 53) with 9007199254740992; lia).
  destruct (of_int_mantissa (5 * j) ltac:(change (2 ^ 53) with 9007199254740992; lia))
    as (m & k & -> & Hk & Hm & Hdm).
  rewrite f64_1_2_eq. unfold Float64.mul. cbn [SFmul xorb].
  (* the target: 6 j as a 53-bit mantissa *)
  destruct (6 * j) as [|P|P] eqn:HP; try lia.
  pose proof (digits2_bounds P) as HdP. set (dP := Zpos (digits2_pos P)) in *.
  assert (HdP3 : 3 <= dP <= 34).
  { split.
    - destruct (Z_lt_le_dec dP 3); [|assumption].
      assert (2 ^ dP <= 2 ^ 2) by (apply Z.pow_le_mono_r; lia). change (2 ^ 2) with 4 in H. lia.
    - destruct (Z_lt_le_dec 34 dP); [|assumption].
      assert (2 ^ 34 <= 2 ^ (dP - 1)) by (apply Z.pow_le_mono_r; lia).
      change (2 ^ 34) with 17179869184 in H. lia. }
  set (q2 := 2 ^ (dP - 2)).
  assert (Pq2 : 0 < q2) by (apply Z.pow_pos_nonneg; lia).
  assert (E1 : 2 ^ (dP - 1) = 2 * q2).
  { unfold q2. rewrite <- (Z.pow_succ_r 2 (dP - 2)) by lia. f_equal. lia. }
  assert (E0 : 2 ^ dP = 4 * q2).
  { replace dP with (Z.succ (dP - 1)) at 1 by lia. rewrite Z.pow_succ_r, E1 by lia. ring. }
  rewrite E1, E0 in HdP.
  assert (Hne : Zpos P <> 2 * q2).
  { intros E. pose proof (pow2_mod3 (dP - 1) ltac:(lia)) as H3. rewrite E1, <- E, <- HP in H3.
    apply H3. replace (6 * j) with (2 * j * 3) by ring. apply Z.mod_mul. lia. }
  set (a := 53 - dP). set (pa := 2 ^ a). set (pk := 2 ^ k).
  assert (Ppa : 0 < pa) by (apply Z.pow_pos_nonneg; unfold a; lia).
  assert (Ppk : 0 < pk) by (apply Z.pow_pos_nonneg; lia).
  assert (Ea : pa * (4 * q2) = 2 ^ 53).
  { unfold pa. rewrite <- E0, <- Z.pow_add_r by (unfold a; lia). f_equal. unfold a. lia. }
  set (n := dP - 1 + k).
  assert (En : 2 ^ n = 2 * q2 * pk).
  { unfold n, pk. rewrite Z.pow_add_r, E1 by lia. reflexivity. }
  assert (EA : exists A, Zpos A = Zpos P * pa).
  { exists (Z.to_pos (Zpos P * pa)). rewrite Z2Pos.id by nia. reflexivity. }
  destruct EA as (A & HA).
  assert (E52 : pa * (2 * q2) = 2 ^ 52).
  { change (2 ^ 53) with (2 * 2 ^ 52) in Ea. lia. }
  assert (HM : Zpos (m * 5404319552844595) = Zpos A * 2 ^ n - j * pk).
  { rewrite Pos2Z.inj_mul, Hm, HA, En. fold pk.
    replace (Zpos P * pa * (2 * q2 * pk)) with (Zpos P * pk * (pa * (2 * q2))) by ring.
    rewrite E52, <- HP. change (2 ^ 52) with 4503599627370496. ring. }
  rewrite (binary_round_aux_near false (m * 5404319552844595) (- k + -52) A n (j * pk)).
  - (* the integer part of the result *)
    replace (- k + -52 + n) with (- a) by (unfold n, a; lia).
    unfold to_int64, trunc.
    assert (Ht : match - a with
                 | 0 => Zpos A
                 | Zpos _ => Zpos A * 2 ^ (- a)
                 | Zneg p => Zpos A / 2 ^ Zpos p
                 end = Zpos P).
    { destruct (Z.eq_dec a 0) as [Ha0|Ha0].
      - rewrite Ha0. cbn. rewrite HA. unfold pa. rewrite Ha0. cbn. lia.
      - destruct (- a) as [|p|p] eqn:Hopp; try (unfold a in *; lia).
        rewrite HA. unfold pa. replace a with (Zpos p) by lia.
        apply Z.div_mul. apply Z.pow_nonzero; lia. }
    rewrite Ht.
    replace (min_int64 <=? Zpos P) with true
      by (symmetry; apply Z.leb_le; unfold min_int64; lia).
    replace (Zpos P <=? max_int64) with true
      by (symmetry; apply Z.leb_le; unfold max_int64; lia).
    reflexivity.
  - unfold n. lia.
  - (* the product has 53 + n bits *)
    apply digits2_unique. rewrite HM.
    replace (53 + n - 1) with (52 + n) by lia.
    rewrite !Z.pow_add_r, En by (unfold n; lia).
    rewrite HA. change (2 ^ 53) with (2 * 2 ^ 52). rewrite <- E52.
    assert (j <= 2 ^ 52) by (change (2 ^ 52) with 4503599627370496; lia).
    rewrite <- E52 in H. split; nia.
  - unfold n, a in *. lia.
  - exact HM.
  - nia.
  - rewrite En. nia.
  - rewrite HA. rewrite <- Ea. nia.
Qed.

(** *** Negative durations *)

Lemma binary_round_aux_opp mx ex lx :
  binary_round_aux prec emax true mx ex lx
    = SFopp (binary_round_aux prec emax false mx ex lx).
Proof.
  unfold binary_round_aux.
  destruct (shr_fexp prec emax mx ex lx) as [r1 e1].
  destruct (shr_fexp prec emax _ e1 loc_Exact) as [r2 e2].
  destruct (shr_m r2); try reflexivity. destruct (_ <=? _); reflexivity.
Qed.

Lemma binary_round_opp m e :
  binary_round prec emax true m e = SFopp (binary_round prec emax false m e).
Proof.
  unfold binary_round. destruct (shl_align m e _) as [mz ez]. apply binary_round_aux_opp.
Qed.

Lemma of_int_opp z : 0 < z -> of_int (- z) = SFopp (of_int z).
Proof.
  intros Hz. destruct z as [|p|p]; try lia. cbn [Z.opp of_int binary_normalize].
  apply binary_round_opp.
Qed.

(** [Seconds] is odd: the seconds of [-d] are those of [d], negated. *)
Lemma Seconds_opp d : 0 < d < 2 ^ 63 -> Seconds (- d) = SFopp (Seconds d).
Proof.
  intros Hd. unfold Seconds.
  rewrite Z.quot_opp_l, Z.rem_opp_l by (unfold Second; lia).
  rewrite Z.quot_div_nonneg, Z.rem_mod_nonneg by (unfold Second; lia).
  pose proof (Z.div_mod d Second ltac:(unfold Second; lia)) as Hdm.
  pose proof (Z.mod_pos_bound d Second ltac:(unfold Second; lia)) as Hmb.
  set (sec := d / Second) in *. set (nsec := d mod Second) in *.
  assert (Hsec : 0 <= sec < 2 ^ 53) by (unfold Second in *; lia).
  rewrite f64_1e9_eq.
  destruct (Z.eq_dec nsec 0) as [Hn|Hn].
  - rewrite Hn. cbn [Z.opp].
    change (Float64.div (of_int 0) (S754_finite false 8388608000000000 (-23)))
      with (S754_zero false).
    assert (Hs : 0 < sec < 2 ^ 53) by lia.
    rewrite of_int_opp by lia.
    destruct (of_int_spec sec Hs) as (m & e & Hr & _). unfold of_int. rewrite Hr. reflexivity.
  - assert (Hn' : 0 < nsec < 2 ^ 53) by (unfold Second in *; lia).
    rewrite (of_int_opp nsec) by lia.
    destruct (of_int_spec nsec Hn') as (mn & en & Hrn & Hdn & Hen & _).
    destruct (f64_div_spec mn en 8388608000000000 (-23) Hdn eq_refl ltac:(lia))
      as (my & ey & Hry & _).
    assert (Hdiv : Float64.div (SFopp (of_int nsec)) (S754_finite false 8388608000000000 (-23))
                   = S754_finite true my ey).
    { unfold of_int. rewrite Hrn. unfold Float64.div. cbn [SFopp negb SFdiv xorb].
      cbn [SFdiv xorb] in Hry.
      destruct (SFdiv_core_binary prec emax (Zpos mn) en 8388608000000000 (-23))
        as [[mz ez] lz].
      rewrite binary_round_aux_opp, Hry. reflexivity. }
    rewrite Hdiv. unfold of_int at 3. rewrite Hrn. unfold Float64.div at 1. rewrite Hry.
    destruct (Z.eq_dec sec 0) as [Hs|Hs].
    + rewrite Hs. reflexivity.
    + assert (Hs' : 0 < sec < 2 ^ 53) by lia.
      rewrite (of_int_opp sec) by lia.
      destruct (of_int_spec sec Hs') as (mx & ex & Hrx & _).
      unfold of_int. rewrite Hrx. unfold Float64.add. cbn [SFopp negb SFadd cond_Zopp].
      set (a := fst (shl_align mx ex (Z.min ex ey))).
      set (b := fst (shl_align my ey (Z.min ex ey))).
      change (- Zpos a + - Zpos b) with (Zneg (a + b)).
      change (Zpos a + Zpos b) with (Zpos (a + b)).
      cbn [binary_normalize]. apply binary_round_opp.
Qed.

Lemma to_int64_opp m e a :
  trunc (S754_finite false m e) = Some a -> 0 <= a < 2 ^ 63 ->
  to_int64 (S754_finite true m e) = - a.
Proof.
  intros Ht Ha. unfold to_int64. unfold trunc in Ht |- *. cbv zeta in Ht |- *.
  match type of Ht with Some ?x = _ => set (X := x) in * end.
  assert (HX : X = a) by congruence. rewrite HX.
  replace (min_int64 <=? - a) with true by (symmetry; apply Z.leb_le; unfold min_int64; lia).
  replace (- a <=? max_int64) with true by (symmetry; apply Z.leb_le; unfold max_int64; lia).
  reflexivity.
Qed.

(** The whole seconds of a negative duration are those of its absolute
    value, negated. *)
Lemma to_int64_Seconds_opp d :
  0 < d < 2 ^ 63 -> to_int64 (Seconds (- d)) = - to_int64 (Seconds d).
Proof.
  intros Hd. rewrite Seconds_opp by assumption.
  destruct (Seconds_spec d Hd) as (m & e & Hr & Hdg & He & Hv & _). rewrite Hr.
  destruct (f64_trunc_spec m e) as (a & Ht & Ha & Hab).
  assert (Ha' : a < 2 ^ 63).
  { apply lt_IZR. apply Rle_lt_trans with (F2R m e); [apply Hab|].
    pose proof u52_small.
    assert (IZR d <= 9223372036854775808)%R by (apply (IZR_le d (2 ^ 63)); lia).
    assert (0 < IZR d)%R by (apply (IZR_lt 0 d); lia).
    change (2 ^ 63) with 9223372036854775808.
    apply Rle_lt_trans with (IZR d / 1000000000 * (1 + 4 * u52))%R; [apply Hv|]. nra. }
  cbn [SFopp negb]. rewrite (to_int64_opp m e a Ht) by lia.
  rewrite (f64_to_int64_pos m e a Ht) by lia. reflexivity.
Qed.

(** A duration of less than a second has no whole second. *)
Lemma to_int64_Seconds_small d :
  0 <= d < Second -> to_int64 (Seconds d) = 0.
Proof.
  intros Hd. destruct (Z.eq_dec d 0) as [->|Hd0]; [reflexivity|].
  destruct (Seconds_spec d ltac:(unfold Second in *; lia)) as (m & e & Hr & Hdg & He & Hv & _).
  rewrite Hr. destruct (f64_trunc_spec m e) as (a & Ht & Ha & Hab).
  assert (a < 1).
  { apply lt_IZR. apply Rle_lt_trans with (F2R m e); [apply Hab|].
    pose proof u52_small.
    assert (IZR d <= 999999999)%R by (apply (IZR_le d 999999999); unfold Second in *; lia).
    assert (0 < IZR d)%R by (apply (IZR_lt 0 d); lia).
    apply Rle_lt_trans with (IZR d / 1000000000 * (1 + 4 * u52))%R; [apply Hv|]. nra. }
  rewrite (f64_to_int64_pos m e a Ht) by lia. lia.
Qed.

End Float64Nearest.

(** ** The range calculator *)

Section RangeFacts.

Context {World Matrix MetricSeries : Type}.
Implicit Types w : Worker World Matrix MetricSeries.

Lemma wrap64_small z : min_int64 <= z <= max_int64 -> wrap64 z = z.
Proof.
  unfold min_int64, max_int64, wrap64. intros H.
  rewrite Z.mod_small by lia. lia.
Qed.

(** Truncated division by a positive divisor stays within one divisor of
    the dividend, on the side of zero. *)
Lemma quot_pos_bounds a b :
  0 < b ->
  a = b * Z.quot a b + Z.rem a b /\ - b < Z.rem a b < b /\
  (0 <= a -> 0 <= Z.rem a b) /\ (a <= 0 -> Z.rem a b <= 0).
Proof.
  intros Hb. split; [apply Z.quot_rem'|].
  pose proof (Z.rem_bound_abs a b ltac:(lia)) as Habs.
  split; [lia|]. split; intros Ha.
  - apply Z.rem_bound_pos; lia.
  - apply Z.rem_nonpos; lia.
Qed.

(** The effective window in whole seconds, for a query interval that the
    multiplication by [time.Second] does not overflow. *)
Lemma windowSeconds_bounds w :
  0 <= QueryInterval w <= 7686143364 * Second ->
  0 <= windowSeconds w <= 9223372036 /\
  5000000000 * windowSeconds w - 300000 <= 6 * QueryInterval w
    < 5000000000 * (windowSeconds w + 1) + 300000 /\
  QueryWindow w = windowSeconds w * Second.
Proof.
  intros Hq. destruct (Float64Facts.mul12_bounds (QueryInterval w) Hq) as [Hk Hb].
  set (k := Float64.to_int64 (Float64.mul (Seconds (QueryInterval w)) Float64.f1_2)) in *.
  assert (HQ : QueryWindow w = k * Second).
  { unfold QueryWindow. fold k. unfold mul64. apply wrap64_small.
    unfold min_int64, max_int64, Second. lia. }
  assert (HW : windowSeconds w = k).
  { unfold windowSeconds. rewrite HQ. apply Float64Facts.Seconds_whole; unfold Second; lia. }
  rewrite HW. auto.
Qed.

Lemma stepSeconds_range w :
  Second <= StepDuration w <= max_int64 -> 1 <= stepSeconds w <= 2 ^ 34.
Proof.
  intros H. apply Float64Facts.stepSeconds_bounds. unfold max_int64 in H. lia.
Qed.

(** A step of whole seconds is its own [stepSeconds]. *)
Lemma stepSeconds_whole w k :
  StepDuration w = k * Second -> 0 <= k -> k * Second <= max_int64 -> stepSeconds w = k.
Proof.
  intros H Hk Hb. unfold stepSeconds. rewrite H.
  apply Float64Facts.Seconds_whole; [assumption|unfold max_int64 in Hb; lia].
Qed.

(** The sign of [stepSeconds]: the conversion truncates toward zero, so a
    step shorter than a second, of either sign, gives zero, and a longer
    one keeps its sign. *)
Lemma stepSeconds_sign w :
  min_int64 <= StepDuration w <= max_int64 ->
  (- Second < StepDuration w < Second /\ stepSeconds w = 0) \/
  (Second <= StepDuration w /\ 1 <= stepSeconds w) \/
  (StepDuration w <= - Second /\ stepSeconds w <= -1).
Proof.
  intros Hd. unfold min_int64, max_int64 in Hd.
  assert (Hpos : forall d, Second <= d < 2 ^ 63 -> 1 <= Float64.to_int64 (Seconds d))
    by (intros d H; apply Float64Facts.stepSeconds_bounds; assumption).
  unfold stepSeconds. generalize dependent (StepDuration w). intros d Hd.
  destruct (Z.eq_dec d (- 2 ^ 63)) as [->|Hmin].
  { right. right. split; [unfold Second; lia|]. vm_compute. discriminate. }
  destruct (Z_lt_le_dec d 0) as [Hneg|Hnn].
  - assert (Ed : d = - (- d)) by lia. set (d' := - d) in *. rewrite Ed.
    rewrite Float64Nearest.to_int64_Seconds_opp by lia.
    destruct (Z_lt_le_dec d' Second) as [Hsm|Hbig].
    + left. rewrite Float64Nearest.to_int64_Seconds_small by lia. lia.
    + right. right. specialize (Hpos d' ltac:(lia)). lia.
  - destruct (Z_lt_le_dec d Second) as [Hsm|Hbig].
    + left. rewrite Float64Nearest.to_int64_Seconds_small by lia. lia.
    + right. left. specialize (Hpos d ltac:(lia)). lia.
Qed.

(** The range carries the configured step, and is computed unless
    [stepSeconds] is zero. *)
Lemma calcRange_Step w now :
  stepSeconds w <> 0 ->
  exists r, calcRange w now = Some r /\ Step r = StepDuration w.
Proof.
  intros H. unfold calcRange, div64.
  replace (stepSeconds w =? 0) with false by (symmetry; apply Z.eqb_neq; assumption).
  eexists. split; reflexivity.
Qed.

(** [calcRange] without the wrap-around, when nothing overflows. *)
Lemma calcRange_eq w now :
  1 <= stepSeconds w <= 2 ^ 34 -> 0 <= windowSeconds w <= 2 ^ 34 ->
  - 2 ^ 62 <= now <= 2 ^ 62 ->
  calcRange w now =
    Some {| Start := (Z.quot (Z.quot now 60 * 60 - windowSeconds w) (stepSeconds w) - 1)
                     * stepSeconds w;
            End_ := (Z.quot (Z.quot now 60 * 60) (stepSeconds w) + 1) * stepSeconds w;
            Step := StepDuration w |}.
Proof.
  intros Hs Hw Hn. unfold calcRange.
  set (st := stepSeconds w) in *. set (W := windowSeconds w) in *.
  change (2 ^ 34) with 17179869184 in *. change (2 ^ 62) with 4611686018427387904 in *.
  destruct (quot_pos_bounds now 60 ltac:(lia)) as (E1 & B1 & _).
  assert (H1 : wrap64 (Z.quot now 60) = Z.quot now 60)
    by (apply wrap64_small; unfold min_int64, max_int64; lia).
  rewrite H1. unfold mul64, sub64, add64.
  assert (H2 : wrap64 (Z.quot now 60 * 60) = Z.quot now 60 * 60)
    by (apply wrap64_small; unfold min_int64, max_int64; lia).
  rewrite H2. set (e0 := Z.quot now 60 * 60) in *.
  assert (H3 : wrap64 (e0 - W) = e0 - W)
    by (apply wrap64_small; unfold min_int64, max_int64; lia).
  rewrite H3. unfold div64.
  replace (st =? 0) with false by (symmetry; apply Z.eqb_neq; lia).
  destruct (quot_pos_bounds (e0 - W) st ltac:(lia)) as (E2 & B2 & _).
  destruct (quot_pos_bounds e0 st ltac:(lia)) as (E3 & B3 & _).
  assert (H4 : wrap64 (Z.quot (e0 - W) st) = Z.quot (e0 - W) st)
    by (apply wrap64_small; unfold min_int64, max_int64; nia).
  assert (H5 : wrap64 (Z.quot e0 st) = Z.quot e0 st)
    by (apply wrap64_small; unfold min_int64, max_int64; nia).
  rewrite H4, H5.
  assert (H6 : wrap64 (Z.quot (e0 - W) st - 1) = Z.quot (e0 - W) st - 1)
    by (apply wrap64_small; unfold min_int64, max_int64; nia).
  assert (H7 : wrap64 (Z.quot e0 st + 1) = Z.quot e0 st + 1)
    by (apply wrap64_small; unfold min_int64, max_int64; nia).
  rewrite H6, H7.
  assert (H8 : wrap64 ((Z.quot (e0 - W) st - 1) * st) = (Z.quot (e0 - W) st - 1) * st)
    by (apply wrap64_small; unfold min_int64, max_int64; nia).
  assert (H9 : wrap64 ((Z.quot e0 st + 1) * st) = (Z.quot e0 st + 1) * st)
    by (apply wrap64_small; unfold min_int64, max_int64; nia).
  rewrite H8, H9. reflexivity.
Qed.

End RangeFacts.

Section RangeClaims.

Context {World Matrix MetricSeries : Type}.
Implicit Types w : Worker World Matrix MetricSeries.

(** C1 (amended).  For every query interval from 0 to 7,686,143,364 s (above
    which [QueryWindow] overflows [int64]), every step duration of a whole
    number of seconds, at least one, and every clock reading within [2^62]
    seconds of the epoch, [calcRange] returns a window with [start < end],
    with [start] and [end] multiples of the step, and with
    [end - start >= 1.2 * queryInterval]. *)
Theorem C1_calcRange_window w now k :
  0 <= QueryInterval w <= 7686143364 * Second ->
  StepDuration w = k * Second -> 1 <= k -> k * Second <= max_int64 ->
  - 2 ^ 62 <= now <= 2 ^ 62 ->
  exists r,
    calcRange w now = Some r /\
    Step r = StepDuration w /\
    Start r < End_ r /\
    Z.rem (Start r) k = 0 /\
    Z.rem (End_ r) k = 0 /\
    Z.rem (Start r * Second) (Step r) = 0 /\
    Z.rem (End_ r * Second) (Step r) = 0 /\
    6 * QueryInterval w <= 5 * ((End_ r - Start r) * Second).
Proof.
  intros Hq Hk Hk1 Hkb Hn.
  assert (Hs : Second <= StepDuration w <= max_int64) by (rewrite Hk; unfold Second in *; lia).
  pose proof (stepSeconds_range w Hs) as Hst.
  assert (Hwhole : stepSeconds w = k) by (apply (stepSeconds_whole w k Hk); lia).
  destruct (windowSeconds_bounds w Hq) as (HW & Hb & _).
  eexists. split; [apply calcRange_eq; [assumption|change (2 ^ 34) with 17179869184; lia|assumption]|].
  cbn [Start End_ Step]. rewrite Hwhole in *. rewrite Hk.
  set (W := windowSeconds w) in *.
  set (e0 := Z.quot now 60 * 60).
  destruct (quot_pos_bounds (e0 - W) k ltac:(lia)) as (E2 & B2 & _).
  destruct (quot_pos_bounds e0 k ltac:(lia)) as (E3 & B3 & _).
  split; [reflexivity|]. split; [nia|].
  split; [apply Z.rem_mul; lia|]. split; [apply Z.rem_mul; lia|].
  split; [rewrite <- Z.mul_assoc; apply Z.rem_mul; unfold Second; lia|].
  split; [rewrite <- Z.mul_assoc; apply Z.rem_mul; unfold Second; lia|].
  unfold Second in *. nia.
Qed.

(** C3 (amended).  When the tick interval equals the query interval and is
    a whole number of minutes, the windows of two successive ticks overlap
    by more than 20% of the query interval and by less than 20% of it plus
    three steps. *)
Theorem C3_successive_windows_overlap w now T :
  QueryInterval w = T * Second ->
  SleepDuration w = QueryInterval w ->
  0 <= T <= 7686143364 -> Z.rem T 60 = 0 ->
  Second <= StepDuration w <= max_int64 ->
  0 <= now <= 2 ^ 61 ->
  exists r1 r2,
    calcRange w now = Some r1 /\
    calcRange w (now + T) = Some r2 /\
    T < 5 * (End_ r1 - Start r2) /\
    5 * (End_ r1 - Start r2) < T + 15 * stepSeconds w.
Proof.
  intros HT _ HTb HT60 Hs Hn.
  pose proof (stepSeconds_range w Hs) as Hst.
  destruct (windowSeconds_bounds w ltac:(rewrite HT; unfold Second; lia)) as (HW & Hb & _).
  rewrite HT in Hb.
  change (2 ^ 61) with 2305843009213693952 in Hn.
  do 2 eexists.
  split; [apply calcRange_eq;
          [assumption|change (2 ^ 34) with 17179869184; lia
          |change (2 ^ 62) with 4611686018427387904; lia]|].
  split; [apply calcRange_eq;
          [assumption|change (2 ^ 34) with 17179869184; lia
          |change (2 ^ 62) with 4611686018427387904; lia]|].
  cbn [Start End_ Step].
  set (st := stepSeconds w) in *. set (W := windowSeconds w) in *.
  (* the second tick's minute boundary is the first one's plus T *)
  assert (Hmin : Z.quot (now + T) 60 * 60 = Z.quot now 60 * 60 + T).
  { rewrite !Z.quot_div_nonneg by lia.
    rewrite Z.rem_mod_nonneg in HT60 by lia.
    pose proof (Z.div_mod T 60 ltac:(lia)) as HTd. rewrite HT60, Z.add_0_r in HTd.
    rewrite HTd at 1. rewrite (Z.mul_comm 60), Z.div_add by lia. lia. }
  rewrite Hmin. set (e0 := Z.quot now 60 * 60).
  assert (He0 : 0 <= e0).
  { unfold e0. rewrite Z.quot_div_nonneg by lia.
    pose proof (Z.div_pos now 60 ltac:(lia) ltac:(lia)). lia. }
  destruct (quot_pos_bounds (e0 + T - W) st ltac:(lia)) as (E2 & B2 & _).
  destruct (quot_pos_bounds e0 st ltac:(lia)) as (E3 & B3 & P3 & _).
  specialize (P3 He0). unfold Second in Hb.
  split; nia.
Qed.

(** C4 (amended).  With [queryInterval = 60s], [step = 15s] and
    [now = 12:00:47] (UTC, on any day), the effective window is 72 s and
    the window is [{start = 11:58:30, end = 12:00:15, step = 15s}]. *)
Theorem C4_example_window w day :
  QueryInterval w = 60 * Second -> StepDuration w = 15 * Second ->
  0 <= day <= 10 ^ 12 ->
  QueryWindow w = 72 * Second /\
  calcRange w (86400 * day + (12 * 3600 + 0 * 60 + 47)) =
    Some {| Start := 86400 * day + (11 * 3600 + 58 * 60 + 30);
            End_ := 86400 * day + (12 * 3600 + 0 * 60 + 15);
            Step := 15 * Second |}.
Proof.
  intros Hq Hs Hd.
  assert (HQ : QueryWindow w = 72 * Second) by (unfold QueryWindow; rewrite Hq; reflexivity).
  assert (HW : windowSeconds w = 72) by (unfold windowSeconds; rewrite HQ; reflexivity).
  assert (Hst : stepSeconds w = 15) by (unfold stepSeconds; rewrite Hs; reflexivity).
  split; [assumption|].
  change (10 ^ 12) with 1000000000000 in Hd.
  rewrite calcRange_eq
    by (rewrite ?HW, ?Hst; change (2 ^ 34) with 17179869184;
        change (2 ^ 62) with 4611686018427387904; lia).
  rewrite HW, Hst, Hs.
  assert (E0 : Z.quot (86400 * day + (12 * 3600 + 0 * 60 + 47)) 60 = 1440 * day + 720).
  { rewrite Z.quot_div_nonneg by lia. symmetry. apply Z.div_unique with 47; lia. }
  rewrite E0.
  assert (E1 : Z.quot ((1440 * day + 720) * 60 - 72) 15 = 5760 * day + 2875).
  { rewrite Z.quot_div_nonneg by lia. symmetry. apply Z.div_unique with 3; lia. }
  assert (E2 : Z.quot ((1440 * day + 720) * 60) 15 = 5760 * day + 2880).
  { rewrite Z.quot_div_nonneg by lia. symmetry. apply Z.div_unique with 0; lia. }
  rewrite E1, E2. f_equal. f_equal; lia.
Qed.

End RangeClaims.

(** C1, as stated, fails for a step that is not a whole number of seconds:
    with a step of 1.5 s the window starts at second 527, which is not a
    multiple of 1.5 s. *)
Lemma C1_counterexample :
  let w := Example.exWorker (60 * Second) 1500000000 (60 * Second) in
  Second <= StepDuration w /\
  calcRange w 600 = Some {| Start := 527; End_ := 601; Step := 1500000000 |} /\
  Z.rem (527 * Second) 1500000000 <> 0.
Proof. vm_compute. repeat split; congruence. Qed.

(** Neither does it hold for a negative query interval, nor for one so
    large that [QueryWindow] overflows: the window is then empty. *)
Lemma calcRange_negative_interval :
  calcRange (Example.exWorker (-100 * Second) Second (60 * Second)) 600
    = Some {| Start := 719; End_ := 601; Step := Second |}.
Proof. reflexivity. Qed.

Lemma calcRange_overflowing_interval :
  QueryWindow (Example.exWorker (7686143365 * Second) Second (60 * Second))
    = -9223372035709551616 /\
  calcRange (Example.exWorker (7686143365 * Second) Second (60 * Second)) 600
    = Some {| Start := 9223372634; End_ := 601; Step := Second |}.
Proof. split; reflexivity. Qed.

(** Nor at the far end of [int64] time, where the padded end wraps. *)
Lemma calcRange_end_of_time :
  calcRange (Example.exWorker (60 * Second) (15 * Second) (60 * Second)) max_int64
    = Some {| Start := 9223372036854775710; End_ := -9223372036854775801;
              Step := 15 * Second |}.
Proof. reflexivity. Qed.

Lemma C1_witness :
  let w := Example.exWorker (60 * Second) (15 * Second) (60 * Second) in
  exists r,
    calcRange w 43247 = Some r /\
    Step r = StepDuration w /\
    Start r < End_ r /\
    Z.rem (Start r) 15 = 0 /\
    Z.rem (End_ r) 15 = 0 /\
    Z.rem (Start r * Second) (Step r) = 0 /\
    Z.rem (End_ r * Second) (Step r) = 0 /\
    6 * QueryInterval w <= 5 * ((End_ r - Start r) * Second).
Proof.
  apply (C1_calcRange_window (Example.exWorker (60 * Second) (15 * Second) (60 * Second))
           43247 15);
    vm_compute; repeat split; (discriminate || reflexivity).
Defined.

(** C3, as stated, fails: with a 60 s interval and a 15 s step the windows
    of the ticks at seconds 600 and 660 are [510, 615] and [570, 675]; they
    overlap by 45 s, not by 12 s. *)
Lemma C3_counterexample :
  let w := Example.exWorker (60 * Second) (15 * Second) (60 * Second) in
  calcRange w 600 = Some {| Start := 510; End_ := 615; Step := 15 * Second |} /\
  calcRange w (600 + 60) = Some {| Start := 570; End_ := 675; Step := 15 * Second |} /\
  5 * (615 - 570) <> 60.
Proof. vm_compute. repeat split; congruence. Qed.

(** When the tick interval is not a whole number of minutes the windows
    need not overlap at all: with a 90 s interval and a 1 s step, the ticks
    at seconds 690 and 780 query [551, 661] and [671, 781]. *)
Lemma windows_gap_when_interval_is_not_whole_minutes :
  let w := Example.exWorker (90 * Second) Second (90 * Second) in
  calcRange w 690 = Some {| Start := 551; End_ := 661; Step := Second |} /\
  calcRange w (690 + 90) = Some {| Start := 671; End_ := 781; Step := Second |}.
Proof. split; reflexivity. Qed.

Lemma C3_witness :
  let w := Example.exWorker (60 * Second) (15 * Second) (60 * Second) in
  exists r1 r2,
    calcRange w 600 = Some r1 /\
    calcRange w (600 + 60) = Some r2 /\
    60 < 5 * (End_ r1 - Start r2) /\
    5 * (End_ r1 - Start r2) < 60 + 15 * stepSeconds w.
Proof.
  apply (C3_successive_windows_overlap
           (Example.exWorker (60 * Second) (15 * Second) (60 * Second)) 600 60);
    vm_compute; try reflexivity; split; discriminate.
Defined.

(** C4, as stated, fails: at 12:00:47 the window starts at 11:58:30
    (second 43110 of the day), not at 11:58:45 (second 43125). *)
Lemma C4_counterexample :
  let w := Example.exWorker (60 * Second) (15 * Second) (60 * Second) in
  exists r,
    calcRange w (12 * 3600 + 0 * 60 + 47) = Some r /\
    Start r = 11 * 3600 + 58 * 60 + 30 /\
    Start r <> 11 * 3600 + 58 * 60 + 45.
Proof. eexists. vm_compute. repeat split; congruence. Qed.

Lemma C4_witness :
  let w := Example.exWorker (60 * Second) (15 * Second) (60 * Second) in
  QueryWindow w = 72 * Second /\
  calcRange w (86400 * 20000 + (12 * 3600 + 0 * 60 + 47)) =
    Some {| Start := 86400 * 20000 + (11 * 3600 + 58 * 60 + 30);
            End_ := 86400 * 20000 + (12 * 3600 + 0 * 60 + 15);
            Step := 15 * Second |}.
Proof.
  apply (C4_example_window
           (Example.exWorker (60 * Second) (15 * Second) (60 * Second)) 20000);
    vm_compute; try reflexivity; split; discriminate.
Defined.

(** ** One tick *)

Section TickFacts.

Context {World Matrix MetricSeries : Type}.
Context {ext : Externals World Matrix MetricSeries}.
Implicit Types w : Worker World Matrix MetricSeries.
Implicit Types s : World.
Implicit Types evs okq : list (Event Matrix MetricSeries).

Lemma combine_app_same {A B} (l1 l2 : list A) (m1 m2 : list B) :
  List.length m1 = List.length l1 ->
  combine (l1 ++ l2) (m1 ++ m2) = combine l1 m1 ++ combine l2 m2.
Proof.
  revert m1. induction l1 as [|a l1 IH]; intros [|b m1] H; simpl in *; try discriminate.
  - reflexivity.
  - f_equal. apply IH. congruence.
Qed.

Lemma histogramEvents_ok rng pairs (ms : list Matrix) :
  Forall (ok_query_at rng) (histogramEvents rng pairs ms).
Proof.
  unfold histogramEvents. apply Forall_forall. intros ev Hin.
  apply in_map_iff in Hin. destruct Hin as (pm & <- & _). do 2 eexists. reflexivity.
Qed.

Lemma counterEvents_ok rng counters (ms : list (Matrix * Matrix)) :
  Forall (ok_query_at rng) (counterEvents (MetricSeries := MetricSeries) rng counters ms).
Proof.
  unfold counterEvents. apply Forall_forall. intros ev Hin.
  apply in_flat_map in Hin. destruct Hin as (cm & _ & [<-|[<-|[]]]); do 2 eexists; reflexivity.
Qed.

Lemma aborted_after_ok rng okq evs :
  Forall (ok_query_at rng) okq -> aborted_at rng evs -> aborted_at rng (okq ++ evs).
Proof.
  intros Hok (okq' & q & e & Hok' & ->).
  exists (okq ++ okq'), q, e. split; [apply Forall_app; auto|apply app_assoc].
Qed.

(** Reduction of the monad's plumbing once the callee's result is known. *)
Ltac tick_step :=
  unfold bind, send, return_, ret, panic; cbv beta iota zeta; cbn [app fst snd].

(** The inner loop: either every query succeeds, or the loop stops at the
    first one that fails, after sending its error. *)
Lemma histogramBuckets_run w rng quantile buckets : forall acc s,
  match histogramBuckets w rng quantile buckets acc s with
  | (Next a, _, evs) =>
      exists ms,
        List.length ms = List.length buckets /\
        a = acc ++ gaugeSeries (map (pair quantile) buckets) ms /\
        evs = histogramEvents rng (map (pair quantile) buckets) ms
  | (Stop o, _, evs) => o = Returned /\ aborted_at rng evs
  end.
Proof.
  induction buckets as [|b rest IH]; intros acc s.
  - exists []. cbn. rewrite app_nil_r. auto.
  - cbn [histogramBuckets]. unfold bind at 1; unfold queryMetrics at 1.
    destruct (QueryMetrics (querier w) (HistogramPromQL quantile b) rng s) as [[m|e] s1];
      cbv beta iota zeta.
    + specialize (IH (acc ++ PromHistogramToDatadogGauge b quantile m) s1).
      destruct (histogramBuckets w rng quantile rest _ s1) as [[[a|o] s'] evs].
      * destruct IH as (ms & Hlen & -> & ->). exists (m :: ms).
        split; [simpl; congruence|]. cbn. rewrite <- app_assoc. auto.
      * destruct IH as [-> Hab]. split; [reflexivity|].
        apply (aborted_after_ok rng [EvQueryMetrics (HistogramPromQL quantile b) rng (Ok m)]);
          [|assumption].
        constructor; [do 2 eexists; reflexivity|constructor].
    + tick_step. split; [reflexivity|].
      exists [], (HistogramPromQL quantile b), e. split; [constructor|reflexivity].
Qed.

Lemma histogramQuantiles_run w rng histograms quantiles : forall acc s,
  match histogramQuantiles w rng quantiles histograms acc s with
  | (Next a, _, evs) =>
      exists ms,
        List.length ms = List.length (histogramPairs quantiles histograms) /\
        a = acc ++ gaugeSeries (histogramPairs quantiles histograms) ms /\
        evs = histogramEvents rng (histogramPairs quantiles histograms) ms
  | (Stop o, _, evs) => o = Returned /\ aborted_at rng evs
  end.
Proof.
  induction quantiles as [|q rest IH]; intros acc s.
  - exists []. cbn. rewrite app_nil_r. auto.
  - cbn [histogramQuantiles]. unfold bind at 1.
    pose proof (histogramBuckets_run w rng q histograms acc s) as Hin.
    destruct (histogramBuckets w rng q histograms acc s) as [[[a1|o] s1] evs1].
    + destruct Hin as (ms1 & Hlen1 & -> & ->).
      specialize (IH (acc ++ gaugeSeries (map (pair q) histograms) ms1) s1).
      destruct (histogramQuantiles w rng rest histograms _ s1) as [[[a|o] s2] evs2].
      * destruct IH as (ms2 & Hlen2 & -> & ->). exists (ms1 ++ ms2).
        assert (Hl : List.length ms1 = List.length (map (pair q) histograms))
          by (rewrite length_map; assumption).
        unfold histogramPairs in *. cbn [list_prod].
        change (map (fun y => (q, y)) histograms) with (map (pair q) histograms).
        split; [rewrite !length_app; congruence|].
        unfold gaugeSeries, histogramEvents.
        rewrite (combine_app_same _ _ _ _ Hl), flat_map_app, map_app, <- app_assoc.
        auto.
      * destruct IH as [-> Hab]. split; [reflexivity|].
        apply aborted_after_ok; [apply histogramEvents_ok|assumption].
    + assumption.
Qed.

Lemma counterLoop_run w rng counters : forall rate count s,
  match counterLoop w rng counters rate count s with
  | (Next a, _, evs) =>
      exists ms,
        List.length ms = List.length counters /\
        a = (rate ++ rateSeriesOf counters ms, count ++ countSeriesOf counters ms) /\
        evs = counterEvents rng counters ms
  | (Stop o, _, evs) => o = Returned /\ aborted_at rng evs
  end.
Proof.
  induction counters as [|c rest IH]; intros rate count s.
  - exists []. cbn. rewrite !app_nil_r. auto.
  - cbn [counterLoop]. unfold bind at 1; unfold queryMetrics at 1.
    destruct (QueryMetrics (querier w) (RatePromQL c) rng s) as [[m1|e] s1];
      cbv beta iota zeta.
    + unfold bind at 1; unfold queryMetrics at 1.
      destruct (QueryMetrics (querier w) c rng s1) as [[m2|e] s2]; cbv beta iota zeta.
      * specialize (IH (rate ++ PromCountToDatadogRate c m1)
                       (count ++ PromCountToDatadogCount c m2) s2).
        destruct (counterLoop w rng rest _ _ s2) as [[[a|o] s'] evs].
        -- destruct IH as (ms & Hlen & -> & ->). exists ((m1, m2) :: ms).
           split; [simpl; congruence|]. cbn. rewrite <- !app_assoc. auto.
        -- destruct IH as [-> Hab]. split; [reflexivity|]. cbn [app].
           apply (aborted_after_ok rng [EvQueryMetrics (RatePromQL c) rng (Ok m1);
                                        EvQueryMetrics c rng (Ok m2)]); [|assumption].
           repeat constructor; do 2 eexists; reflexivity.
      * tick_step. split; [reflexivity|].
        exists [EvQueryMetrics (RatePromQL c) rng (Ok m1)], c, e.
        split; [|reflexivity]. repeat constructor. do 2 eexists; reflexivity.
    + tick_step. split; [reflexivity|].
      exists [], (RatePromQL c), e. split; [constructor|reflexivity].
Qed.

(** Every tick has one of the four shapes. *)
Lemma do_shape w s out s' evs :
  run_do w s = (out, s', evs) -> TickShape w s out evs.
Proof.
  unfold run_do, do. unfold bind at 1; unfold timeNow at 1. cbv beta iota zeta.
  destruct (calcRange w (Now s)) as [rng|] eqn:Hrng.
  - unfold bind at 1; unfold listMetrics at 1.
    destruct (ListMetrics (querier w) (MetricPrefix w) s) as [[[hs cs]|e] s1];
      cbv beta iota zeta.
    + unfold bind at 1.
      pose proof (histogramQuantiles_run w rng hs (Quantiles w) [] s1) as Hh.
      destruct (histogramQuantiles w rng (Quantiles w) hs [] s1) as [[[a1|o] s2] evs1].
      * destruct Hh as (hms & Hlen1 & -> & ->).
        unfold bind at 1.
        pose proof (counterLoop_run w rng cs [] [] s2) as Hc.
        destruct (counterLoop w rng cs [] [] s2) as [[[a2|o] s3] evs2].
        -- destruct Hc as (cms & Hlen2 & -> & ->).
           unfold bind at 1; unfold submitMetrics at 1. cbn [fst snd app].
           destruct (SubmitMetrics (submitter w) _ s3) as [[e|] s4]; tick_step;
             intros [= <- <- <-].
           ++ apply (shape_submitted w s rng hs cs hms cms (Some e)); assumption.
           ++ apply (shape_submitted w s rng hs cs hms cms None); assumption.
        -- destruct Hc as [-> Hab]. tick_step. intros [= <- <- <-].
           apply (shape_query_failed w s rng hs cs); [assumption|].
           apply aborted_after_ok; [apply histogramEvents_ok|assumption].
      * destruct Hh as [-> Hab]. tick_step. intros [= <- <- <-].
        apply (shape_query_failed w s rng hs cs); assumption.
    + tick_step. intros [= <- <- <-]. apply (shape_listing_failed w s rng e). assumption.
  - tick_step. intros [= <- <- <-]. apply shape_divide_by_zero. assumption.
Qed.

(** *** What the events of each shape contain *)

Lemma queries_app evs1 evs2 : queries (evs1 ++ evs2) = queries evs1 ++ queries evs2.
Proof. apply flat_map_app. Qed.

Lemma query_ranges_app evs1 evs2 :
  query_ranges (evs1 ++ evs2) = query_ranges evs1 ++ query_ranges evs2.
Proof. apply flat_map_app. Qed.

Lemma submitted_app evs1 evs2 : submitted (evs1 ++ evs2) = submitted evs1 ++ submitted evs2.
Proof. apply flat_map_app. Qed.

Lemma sent_app evs1 evs2 : sent (evs1 ++ evs2) = sent evs1 ++ sent evs2.
Proof. apply flat_map_app. Qed.

Lemma ok_queries_quiet rng okq :
  Forall (ok_query_at rng) okq ->
  submitted okq = [] /\ sent okq = [] /\ existsb is_failed_call okq = false /\
  filter is_query okq = okq /\
  (forall x, In x okq -> is_send x = false) /\
  (forall r, In r (query_ranges okq) -> r = rng).
Proof.
  induction 1 as [|ev okq (q & m & ->) _ (IH1 & IH2 & IH3 & IH4 & IH5 & IH6)].
  - repeat split; try reflexivity; intros ? [].
  - cbn. rewrite IH4. repeat split; try assumption; try reflexivity.
    + intros x [<-|Hx]; [reflexivity|auto].
    + intros r [<-|Hr]; [reflexivity|auto].
Qed.

Lemma queries_histogramEvents rng pairs : forall ms : list Matrix,
  List.length ms = List.length pairs ->
  queries (histogramEvents rng pairs ms)
    = map (fun p => HistogramPromQL (fst p) (snd p)) pairs.
Proof.
  induction pairs as [|p pairs IH]; intros [|m ms] H; simpl in *; try discriminate.
  - reflexivity.
  - f_equal. apply IH. congruence.
Qed.

Lemma queries_counterEvents rng counters : forall ms : list (Matrix * Matrix),
  List.length ms = List.length counters ->
  queries (counterEvents (MetricSeries := MetricSeries) rng counters ms)
    = counterQueries counters.
Proof.
  induction counters as [|c counters IH]; intros [|m ms] H; simpl in *; try discriminate.
  - reflexivity.
  - do 2 f_equal. apply IH. congruence.
Qed.

(** The counter loop issues the rate queries and the raw queries, one of
    each per counter. *)
Lemma counterQueries_perm counters :
  Permutation (counterQueries counters) (rateQueries counters ++ rawQueries counters).
Proof.
  unfold counterQueries, rateQueries, rawQueries.
  induction counters as [|c counters IH]; simpl; [constructor|].
  constructor. apply Permutation_cons_app. exact IH.
Qed.

Lemma length_histogramQueries quantiles histograms :
  List.length (histogramQueries quantiles histograms)
    = (List.length quantiles * List.length histograms)%nat.
Proof.
  unfold histogramQueries, histogramPairs. rewrite length_map. apply length_prod.
Qed.

Lemma in_submitted evs batch r :
  In (EvSubmitMetrics batch r) evs -> In batch (submitted evs).
Proof.
  intros H. unfold submitted. apply in_flat_map.
  exists (EvSubmitMetrics batch r). split; [assumption|left; reflexivity].
Qed.

Lemma in_sent evs e : In e (sent evs) <-> In (EvSend e) evs.
Proof.
  unfold sent. rewrite in_flat_map. split.
  - intros (ev & Hin & He). destruct ev; cbn in He; try contradiction.
    destruct He as [->|[]]. assumption.
  - intros H. exists (EvSend e). split; [assumption|left; reflexivity].
Qed.

(** The events of a tick that reached [SubmitMetrics]. *)
Lemma submitted_tick_events w rng histograms counters hms cms r evs :
  List.length hms = List.length (histogramPairs (Quantiles w) histograms) ->
  List.length cms = List.length counters ->
  evs = EvListMetrics (MetricPrefix w) (Ok (histograms, counters))
          :: histogramEvents rng (histogramPairs (Quantiles w) histograms) hms
          ++ counterEvents rng counters cms
          ++ EvSubmitMetrics
               ((gaugeSeries (histogramPairs (Quantiles w) histograms) hms
                   ++ rateSeriesOf counters cms) ++ countSeriesOf counters cms) r
          :: match r with Some e => [EvSend e] | None => [] end ->
  submitted evs = [(gaugeSeries (histogramPairs (Quantiles w) histograms) hms
                      ++ rateSeriesOf counters cms) ++ countSeriesOf counters cms] /\
  sent evs = match r with Some e => [e] | None => [] end /\
  existsb is_failed_call evs = false /\
  queries evs = histogramQueries (Quantiles w) histograms ++ counterQueries counters /\
  filter is_query evs = histogramEvents rng (histogramPairs (Quantiles w) histograms) hms
                          ++ counterEvents rng counters cms /\
  (forall r', In r' (query_ranges evs) -> r' = rng).
Proof.
  intros Hl1 Hl2 ->.
  destruct (ok_queries_quiet rng _ (histogramEvents_ok rng
              (histogramPairs (Quantiles w) histograms) hms))
    as (S1 & T1 & F1 & Q1 & _ & R1).
  destruct (ok_queries_quiet rng _ (counterEvents_ok rng counters cms))
    as (S2 & T2 & F2 & Q2 & _ & R2).
  split; [|split; [|split; [|split; [|split]]]].
  - change (submitted (EvListMetrics ?a ?b :: ?l)) with (submitted l).
    rewrite !submitted_app, S1, S2. cbn. destruct r; reflexivity.
  - change (sent (EvListMetrics ?a ?b :: ?l)) with (sent l).
    rewrite !sent_app, T1, T2. cbn. destruct r; reflexivity.
  - cbn [existsb is_failed_call orb]. rewrite !existsb_app, F1, F2. cbn.
    destruct r; reflexivity.
  - change (queries (EvListMetrics ?a ?b :: ?l)) with (queries l).
    rewrite !queries_app, queries_histogramEvents, queries_counterEvents by assumption.
    cbn. destruct r; cbn; rewrite app_nil_r; reflexivity.
  - cbn [filter is_query]. rewrite !filter_app, Q1, Q2. cbn.
    destruct r; cbn; rewrite app_nil_r; reflexivity.
  - change (query_ranges (EvListMetrics ?a ?b :: ?l)) with (query_ranges l).
    rewrite !query_ranges_app. intros r' Hin.
    apply in_app_or in Hin. destruct Hin as [Hin|Hin]; [auto|].
    apply in_app_or in Hin. destruct Hin as [Hin|Hin]; [auto|].
    destruct r; cbn in Hin; contradiction.
Qed.

(** The events of a tick that a failing query aborted. *)
Lemma aborted_tick_events rng evs :
  aborted_at rng evs ->
  exists okq q e,
    evs = okq ++ [EvQueryMetrics q rng (Err e); EvSend e] /\
    submitted evs = [] /\ sent evs = [e] /\
    existsb is_failed_call okq = false /\
    (forall x, In x okq -> is_send x = false) /\
    (forall r', In r' (query_ranges evs) -> r' = rng).
Proof.
  intros (okq & q & e & Hok & ->).
  destruct (ok_queries_quiet rng okq Hok) as (S1 & T1 & F1 & _ & N1 & R1).
  exists okq, q, e. split; [reflexivity|].
  rewrite submitted_app, sent_app, query_ranges_app, S1, T1.
  repeat split; try assumption; try reflexivity.
  intros r' Hin. apply in_app_or in Hin. destruct Hin as [Hin|[<-|[]]]; auto.
Qed.

(** A tick whose range computation succeeds goes on to the catalog
    listing: that call is its first event, with the answer of the querier. *)
Lemma do_lists_first w s rng :
  calcRange w (Now s) = Some rng ->
  exists tl,
    snd (run_do w s)
      = EvListMetrics (MetricPrefix w) (fst (ListMetrics (querier w) (MetricPrefix w) s)) :: tl.
Proof.
  intros Hrng.
  destruct (run_do w s) as [[out s'] evs] eqn:Hrun. cbn [snd].
  revert Hrun. unfold run_do, do. unfold bind at 1; unfold timeNow at 1. cbv beta iota zeta.
  rewrite Hrng. unfold bind at 1; unfold listMetrics at 1.
  destruct (ListMetrics (querier w) (MetricPrefix w) s) as [r s1]. cbv beta iota zeta.
  cbn [fst].
  match goal with
  | |- context [match ?k s1 with _ => _ end] => destruct (k s1) as [[fl s2] ev2]
  end.
  destruct fl; intros [= <- <- <-]; eexists; reflexivity.
Qed.

(** What a tick does once its range is computed: it lists the catalog,
    issues range queries over that range only, and does issue some when the
    listing succeeds with a catalog that calls for at least one. *)
Lemma do_proceeds w s rng :
  calcRange w (Now s) = Some rng ->
  exists tl,
    snd (run_do w s)
      = EvListMetrics (MetricPrefix w) (fst (ListMetrics (querier w) (MetricPrefix w) s)) :: tl /\
    (forall rng', In rng' (query_ranges tl) -> rng' = rng) /\
    (forall histograms counters,
       fst (ListMetrics (querier w) (MetricPrefix w) s) = Ok (histograms, counters) ->
       histogramQueries (Quantiles w) histograms ++ counterQueries counters <> [] ->
       queries tl <> []).
Proof.
  intros Hrng. destruct (do_lists_first w s rng Hrng) as (tl & Htl).
  exists tl. split; [exact Htl|].
  destruct (run_do w s) as [[out s'] evs] eqn:Hrun. cbn [snd] in Htl.
  pose proof (do_shape w s out s' evs Hrun) as Hs.
  destruct Hs as [Hr|rng0 e Hr|rng0 hs cs evs' Hr Hab|rng0 hs cs hms cms r Hr Hl1 Hl2].
  - discriminate.
  - injection Htl as Hhd <-. split; [intros ? []|].
    intros histograms counters Hok. rewrite <- Hhd in Hok. discriminate.
  - injection Htl as Hhd <-.
    assert (rng0 = rng) as -> by congruence.
    destruct (aborted_tick_events rng evs' Hab) as (okq & q & e & -> & _ & _ & _ & _ & R1).
    split; [exact R1|]. intros _ _ _ _. rewrite queries_app. cbn.
    intros H. apply app_eq_nil in H. destruct H as [_ H]. discriminate.
  - injection Htl as Hhd <-.
    assert (rng0 = rng) as -> by congruence.
    destruct (submitted_tick_events w rng hs cs hms cms r _ Hl1 Hl2 eq_refl)
      as (_ & _ & _ & Q1 & _ & R1).
    split; [exact R1|]. intros histograms counters Hok Hne.
    rewrite <- Hhd in Hok. injection Hok as <- <-.
    change (queries (EvListMetrics ?a ?b :: ?l)) with (queries l) in Q1.
    rewrite Q1. exact Hne.
Qed.

End TickFacts.

Section TickClaims.

Context {World Matrix MetricSeries : Type}.
Context {ext : Externals World Matrix MetricSeries}.
Implicit Types w : Worker World Matrix MetricSeries.
Implicit Types s : World.
Implicit Types evs : list (Event Matrix MetricSeries).

(** C2.  If the catalog listing or any range query fails during a tick,
    [SubmitMetrics] is not invoked in that tick, and the failing call is the
    last call of the tick: after it the tick only reports the error.  A tick
    that returns without a failed call has submitted exactly one batch. *)
Theorem C2_no_partial_submission w s out s' evs :
  run_do w s = (out, s', evs) ->
  (existsb is_failed_call evs = true ->
   submitted evs = [] /\
   exists pre ev post,
     evs = pre ++ ev :: post /\ is_failed_call ev = true /\
     existsb is_failed_call pre = false /\
     forall x, In x post -> is_send x = true) /\
  (existsb is_failed_call evs = false -> out = Returned ->
   List.length (submitted evs) = 1%nat).
Proof.
  intros Hrun. pose proof (do_shape w s out s' evs Hrun) as Hs.
  destruct Hs as [Hr|rng e Hr|rng hs cs evs' Hr Hab|rng hs cs hms cms r Hr Hl1 Hl2].
  - split; [discriminate|]. intros _ [=].
  - split; [|discriminate]. intros _. split; [reflexivity|].
    exists [], (EvListMetrics (MetricPrefix w) (Err e)), [].
    repeat split. intros x [].
  - destruct (aborted_tick_events rng evs' Hab) as (okq & q & e & -> & S1 & T1 & F1 & N1 & R1).
    split.
    + intros _. split; [exact S1|].
      exists (EvListMetrics (MetricPrefix w) (Ok (hs, cs)) :: okq),
             (EvQueryMetrics q rng (Err e)), [EvSend e].
      split; [reflexivity|]. split; [reflexivity|]. split; [exact F1|].
      intros x [<-|[]]. reflexivity.
    + cbn [existsb is_failed_call orb]. rewrite existsb_app, F1. cbn. discriminate.
  - destruct (submitted_tick_events w rng hs cs hms cms r _ Hl1 Hl2 eq_refl)
      as (S1 & T1 & F1 & _).
    split.
    + intros H. rewrite F1 in H. discriminate.
    + intros _ _. rewrite S1. reflexivity.
Qed.

(** C5 (amended).  A zero step, and a negative step shorter than one
    second, make the tick panic with an integer division by zero inside
    [calcRange], before the catalog listing and before any [QueryMetrics]
    call.  A negative step of one second or longer is not rejected:
    [calcRange] returns a range with that step, the tick lists the catalog,
    every range query it issues carries that range, and it does issue
    range queries whenever the listing succeeds with a catalog that calls
    for at least one. *)
Theorem C5_only_a_short_step_fails_fast w s :
  min_int64 <= StepDuration w <= max_int64 ->
  (- Second < StepDuration w <= 0 ->
   run_do w s = (Panicked DivideByZero, s, []) /\
   queries (snd (run_do w s)) = []) /\
  (StepDuration w <= - Second ->
   exists rng tl,
     calcRange w (Now s) = Some rng /\ Step rng = StepDuration w /\
     snd (run_do w s)
       = EvListMetrics (MetricPrefix w) (fst (ListMetrics (querier w) (MetricPrefix w) s))
           :: tl /\
     (forall rng', In rng' (query_ranges tl) -> rng' = rng) /\
     (forall histograms counters,
        fst (ListMetrics (querier w) (MetricPrefix w) s) = Ok (histograms, counters) ->
        histogramQueries (Quantiles w) histograms ++ counterQueries counters <> [] ->
        queries tl <> [])).
Proof.
  intros Hd. pose proof (stepSeconds_sign w Hd) as Hsign. split.
  - intros Hshort.
    assert (H : stepSeconds w = 0)
      by (unfold Second in *; destruct Hsign as [[_ ?]|[[? _]|[? _]]]; [assumption|lia|lia]).
    assert (Hr : run_do w s = (Panicked DivideByZero, s, [])).
    { unfold run_do, do, bind, timeNow, calcRange, div64. rewrite H. reflexivity. }
    rewrite Hr. split; reflexivity.
  - intros Hneg.
    assert (H : stepSeconds w <> 0)
      by (unfold Second in *; destruct Hsign as [[? _]|[[? _]|[_ ?]]]; lia).
    destruct (calcRange_Step w (Now s) H) as (rng & Hrng & Hstep).
    destruct (do_proceeds w s rng Hrng) as (tl & Htl & Hranges & Hsome).
    exists rng, tl. auto.
Qed.

(** The range computation panics exactly when [stepSeconds] is zero: a
    negative step is not rejected. *)
Lemma calcRange_panics_iff w now : calcRange w now = None <-> stepSeconds w = 0.
Proof.
  unfold calcRange, div64. destruct (Z.eqb_spec (stepSeconds w) 0) as [H|H].
  - split; auto.
  - split; [discriminate|contradiction].
Qed.

Lemma stepSeconds_zero w : StepDuration w = 0 -> stepSeconds w = 0.
Proof. intros H. unfold stepSeconds. rewrite H. reflexivity. Qed.

(** A failed catalog listing is the only thing its tick did: the tick
    panics with the error, without sending it on the channel and without
    any query or submission. *)
Lemma listing_failure_panics w s prefix e :
  In (EvListMetrics prefix (Err e)) (snd (run_do w s)) ->
  fst (fst (run_do w s)) = Panicked (PanicError e) /\
  snd (run_do w s) = [EvListMetrics (MetricPrefix w) (Err e)].
Proof.
  destruct (run_do w s) as [[out s'] evs] eqn:Hrun. cbn [fst snd].
  pose proof (do_shape w s out s' evs Hrun) as Hs.
  destruct Hs as [Hr|rng e0 Hr|rng hs cs evs' Hr Hab|rng hs cs hms cms r Hr Hl1 Hl2].
  - intros [].
  - intros [[= _ <-]|[]]. auto.
  - intros [[=]|Hin]. exfalso.
    destruct Hab as (okq & q & e1 & Hok & ->).
    apply in_app_or in Hin. destruct Hin as [Hin|[[=]|[[=]|[]]]].
    rewrite Forall_forall in Hok. destruct (Hok _ Hin) as (? & ? & [=]).
  - intros [[=]|Hin]. exfalso.
    apply in_app_or in Hin. destruct Hin as [Hin|Hin].
    { pose proof (histogramEvents_ok rng (histogramPairs (Quantiles w) hs) hms) as Hok.
      rewrite Forall_forall in Hok. destruct (Hok _ Hin) as (? & ? & [=]). }
    apply in_app_or in Hin. destruct Hin as [Hin|Hin].
    { pose proof (counterEvents_ok (MetricSeries := MetricSeries) rng cs cms) as Hok.
      rewrite Forall_forall in Hok. destruct (Hok _ Hin) as (? & ? & [=]). }
    destruct Hin as [[=]|Hin]. destruct r; cbn in Hin; [destruct Hin as [[=]|[]]|contradiction].
Qed.

(** C7.  A tick that returns without reporting an error has issued, for the
    catalog [(histograms, counters)] it discovered, the histogram queries of
    all (quantile, bucket) pairs, then for each counter its rate query and
    its raw query: [Q*H] histogram queries, [C] rate queries and [C] raw
    queries, and it has submitted one batch, made of the series of all the
    results. *)
Theorem C7_queries_of_a_successful_tick w s out s' evs :
  run_do w s = (out, s', evs) -> out = Returned -> sent evs = [] ->
  exists rng histograms counters hms cms,
    calcRange w (Now s) = Some rng /\
    In (EvListMetrics (MetricPrefix w) (Ok (histograms, counters))) evs /\
    queries evs = histogramQueries (Quantiles w) histograms ++ counterQueries counters /\
    Permutation (queries evs)
      (histogramQueries (Quantiles w) histograms
         ++ rateQueries counters ++ rawQueries counters) /\
    List.length (histogramQueries (Quantiles w) histograms)
      = (List.length (Quantiles w) * List.length histograms)%nat /\
    List.length (rateQueries counters) = List.length counters /\
    List.length (rawQueries counters) = List.length counters /\
    filter is_query evs
      = histogramEvents rng (histogramPairs (Quantiles w) histograms) hms
          ++ counterEvents rng counters cms /\
    List.length hms = (List.length (Quantiles w) * List.length histograms)%nat /\
    List.length cms = List.length counters /\
    submitted evs = [gaugeSeries (histogramPairs (Quantiles w) histograms) hms
                       ++ rateSeriesOf counters cms ++ countSeriesOf counters cms].
Proof.
  intros Hrun Hout Hsent. pose proof (do_shape w s out s' evs Hrun) as Hs.
  destruct Hs as [Hr|rng e Hr|rng hs cs evs' Hr Hab|rng hs cs hms cms r Hr Hl1 Hl2];
    try discriminate.
  - exfalso. destruct (aborted_tick_events rng evs' Hab) as (okq & q & e & _ & _ & T1 & _).
    change (sent evs' = []) in Hsent. congruence.
  - destruct (submitted_tick_events w rng hs cs hms cms r _ Hl1 Hl2 eq_refl)
      as (S1 & T1 & F1 & Q1 & K1 & R1).
    exists rng, hs, cs, hms, cms.
    split; [assumption|]. split; [left; reflexivity|]. split; [exact Q1|].
    split; [rewrite Q1; apply Permutation_app_head, counterQueries_perm|].
    split; [apply length_histogramQueries|].
    split; [apply length_map|]. split; [reflexivity|]. split; [exact K1|].
    split; [rewrite Hl1; apply length_prod|]. split; [assumption|].
    rewrite S1, <- app_assoc. reflexivity.
Qed.

(** C8.  The batch handed to [SubmitMetrics] is the histogram-derived
    series, then the rate-derived series, then the raw-count-derived series,
    each group in the order of its queries; its length is the sum of the
    lengths of the three groups. *)
Theorem C8_batch_order w s out s' evs batch r :
  run_do w s = (out, s', evs) -> In (EvSubmitMetrics batch r) evs ->
  exists rng histograms counters hms cms,
    In (EvListMetrics (MetricPrefix w) (Ok (histograms, counters))) evs /\
    filter is_query evs
      = histogramEvents rng (histogramPairs (Quantiles w) histograms) hms
          ++ counterEvents rng counters cms /\
    batch = gaugeSeries (histogramPairs (Quantiles w) histograms) hms
              ++ rateSeriesOf counters cms ++ countSeriesOf counters cms /\
    List.length batch
      = (List.length (gaugeSeries (histogramPairs (Quantiles w) histograms) hms)
         + List.length (rateSeriesOf counters cms)
         + List.length (countSeriesOf counters cms))%nat.
Proof.
  intros Hrun Hin. apply in_submitted in Hin.
  pose proof (do_shape w s out s' evs Hrun) as Hs.
  destruct Hs as [Hr|rng e Hr|rng hs cs evs' Hr Hab|rng hs cs hms cms r0 Hr Hl1 Hl2].
  - destruct Hin.
  - destruct Hin.
  - exfalso. destruct (aborted_tick_events rng evs' Hab) as (okq & q & e & _ & S1 & _).
    change (In batch (submitted evs')) in Hin. rewrite S1 in Hin. destruct Hin.
  - destruct (submitted_tick_events w rng hs cs hms cms r0 _ Hl1 Hl2 eq_refl)
      as (S1 & T1 & F1 & Q1 & K1 & R1).
    rewrite S1 in Hin. destruct Hin as [<-|[]].
    exists rng, hs, cs, hms, cms.
    split; [left; reflexivity|]. split; [exact K1|].
    split; [symmetry; apply app_assoc|]. rewrite !length_app. reflexivity.
Qed.

(** Every range query of a tick runs over the window computed from the
    clock at the start of that tick. *)
Lemma queries_use_the_ticks_window w s rng :
  In rng (query_ranges (snd (run_do w s))) -> calcRange w (Now s) = Some rng.
Proof.
  destruct (run_do w s) as [[out s'] evs] eqn:Hrun. cbn [snd].
  pose proof (do_shape w s out s' evs Hrun) as Hs.
  destruct Hs as [Hr|rng0 e Hr|rng0 hs cs evs' Hr Hab|rng0 hs cs hms cms r Hr Hl1 Hl2].
  - intros [].
  - intros [].
  - destruct (aborted_tick_events rng0 evs' Hab) as (okq & q & e & _ & _ & _ & _ & _ & R1).
    intros Hin. change (In rng (query_ranges evs')) in Hin. rewrite (R1 _ Hin). assumption.
  - destruct (submitted_tick_events w rng0 hs cs hms cms r _ Hl1 Hl2 eq_refl)
      as (_ & _ & _ & _ & _ & R1).
    intros Hin. rewrite (R1 _ Hin). assumption.
Qed.

(** What a tick sends on the channel: nothing, or one error, the error of
    the call that failed, as its last action before returning. *)
Lemma tick_sends w s out s' evs :
  run_do w s = (out, s', evs) ->
  sent evs = [] \/
  exists e pre failed,
    sent evs = [e] /\ out = Returned /\
    evs = pre ++ [failed; EvSend e] /\
    sent pre = [] /\ existsb is_failed_call pre = false /\
    ((exists q rng, failed = EvQueryMetrics q rng (Err e)) \/
     (exists batch, failed = EvSubmitMetrics batch (Some e))).
Proof.
  intros Hrun. pose proof (do_shape w s out s' evs Hrun) as Hs.
  destruct Hs as [Hr|rng e Hr|rng hs cs evs' Hr Hab|rng hs cs hms cms r Hr Hl1 Hl2].
  - left. reflexivity.
  - left. reflexivity.
  - right. destruct Hab as (okq & q & e & Hok & ->).
    destruct (ok_queries_quiet rng okq Hok) as (S1 & T1 & F1 & _).
    exists e, (EvListMetrics (MetricPrefix w) (Ok (hs, cs)) :: okq),
           (EvQueryMetrics q rng (Err e)).
    split; [change (sent (okq ++ [EvQueryMetrics q rng (Err e); EvSend e]) = [e]);
            rewrite sent_app, T1; reflexivity|].
    split; [reflexivity|]. split; [reflexivity|]. split; [exact T1|]. split; [exact F1|].
    left. eauto.
  - destruct (submitted_tick_events w rng hs cs hms cms r _ Hl1 Hl2 eq_refl)
      as (S1 & T1 & F1 & _).
    destruct r as [e|]; [right|left; exact T1].
    destruct (ok_queries_quiet rng _ (histogramEvents_ok rng
                (histogramPairs (Quantiles w) hs) hms)) as (_ & T2 & F2 & _).
    destruct (ok_queries_quiet rng _ (counterEvents_ok (MetricSeries := MetricSeries) rng cs cms))
      as (_ & T3 & F3 & _).
    eexists e, (EvListMetrics (MetricPrefix w) (Ok (hs, cs))
                  :: histogramEvents rng (histogramPairs (Quantiles w) hs) hms
                  ++ counterEvents rng cs cms), _.
    split; [exact T1|]. split; [reflexivity|].
    split; [cbn [app]; f_equal; apply app_assoc|].
    split; [change (sent (histogramEvents rng (histogramPairs (Quantiles w) hs) hms
                            ++ counterEvents rng cs cms) = []);
            rewrite sent_app, T2, T3; reflexivity|].
    split; [cbn [existsb is_failed_call orb]; rewrite existsb_app, F2, F3; reflexivity|].
    right. eauto.
Qed.

End TickClaims.

(** ** The scheduler loop *)

Section RunClaims.

Context {World Matrix MetricSeries : Type}.
Context {ext : Externals World Matrix MetricSeries}.
Implicit Types w : Worker World Matrix MetricSeries.
Implicit Types s : World.
Implicit Types p : Proc Matrix MetricSeries.

Lemma Run_step_dead w p i :
  loop p = Crashed \/ loop p = Stopped -> Run_step w p i = None.
Proof. unfold Run_step. intros [-> | ->]; reflexivity. Qed.

Lemma Run_exec_dead w p inputs :
  loop p = Crashed \/ loop p = Stopped -> inputs <> [] -> Run_exec w p inputs = None.
Proof.
  intros H Hne. destruct inputs as [|i rest]; [contradiction|].
  cbn [Run_exec]. rewrite Run_step_dead by assumption. reflexivity.
Qed.

(** Only an interrupt taken by the select makes [Run] return. *)
Lemma Run_step_stops w p i p' :
  Run_step w p i = Some p' -> loop p' = Stopped ->
  loop p = Selecting /\ exists sig, i = Interrupted sig.
Proof.
  unfold Run_step, launch, chan_send, record_events.
  destruct (loop p) eqn:Hl; try discriminate;
    destruct i as [s| | |sig|];
    repeat match goal with
      | |- context [if ?b then _ else _] => destruct b
      | |- context [match run_do ?w0 ?s0 with _ => _ end] =>
          destruct (run_do w0 s0) as [[[|?] ?] ?]
      | |- context [match sent ?l with _ => _ end] => destruct (sent l)
      | |- context [match errs ?q with _ => _ end] => destruct (errs q)
      end;
    try discriminate; intros [= <-]; cbn; intros Hstop; try discriminate; eauto.
Qed.

Lemma Run_exec_stops w inputs : forall p p',
  loop p <> Stopped -> Run_exec w p inputs = Some p' -> loop p' = Stopped ->
  exists sig, In (Interrupted sig) inputs.
Proof.
  induction inputs as [|i rest IH]; intros p p' Hp Hrun Hstop.
  - cbn in Hrun. injection Hrun as <-. contradiction.
  - cbn [Run_exec] in Hrun. destruct (Run_step w p i) as [p1|] eqn:Hstep; [|discriminate].
    destruct (loop p1) eqn:Hl1.
    + destruct (IH p1 p' ltac:(congruence) Hrun Hstop) as (sig & Hin). exists sig. right. exact Hin.
    + destruct (IH p1 p' ltac:(congruence) Hrun Hstop) as (sig & Hin). exists sig. right. exact Hin.
    + destruct (Run_step_stops w p i p1 Hstep Hl1) as (_ & sig & ->). exists sig. left. reflexivity.
    + destruct (IH p1 p' ltac:(congruence) Hrun Hstop) as (sig & Hin). exists sig. right. exact Hin.
Qed.

(** C6.  If the catalog listing returns an error in a tick, the tick panics
    with that error: it has made no other call, it does not send the error
    on the channel, and the process is gone -- no later tick, query or
    submission. *)
Theorem C6_listing_failure_stops_the_process w s prefix e :
  In (EvListMetrics prefix (Err e)) (snd (run_do w s)) ->
  fst (fst (run_do w s)) = Panicked (PanicError e) /\
  snd (run_do w s) = [EvListMetrics (MetricPrefix w) (Err e)] /\
  sent (snd (run_do w s)) = [] /\
  forall p p',
    Run_step w p (TickRuns s) = Some p' ->
    loop p' = Crashed /\
    errs p' = errs p /\ blocked p' = blocked p /\ launched p' = launched p /\
    history p' = history p ++ [EvListMetrics (MetricPrefix w) (Err e)] /\
    forall inputs, inputs <> [] -> Run_exec w p' inputs = None.
Proof.
  intros Hin. destruct (listing_failure_panics w s prefix e Hin) as [Hout Hevs].
  split; [assumption|]. split; [assumption|]. split; [rewrite Hevs; reflexivity|].
  intros p p'. unfold Run_step.
  destruct (run_do w s) as [[out s'] evs]. cbn [fst snd] in Hout, Hevs. subst out evs.
  destruct (loop p); try discriminate;
    (destruct (_ <? _)%nat; [|discriminate]); intros [= <-]; cbn;
    repeat split; intros; apply Run_exec_dead; cbn; auto.
Qed.

(** A tick that sends an error on the channel returns. *)
Lemma tick_that_sends_returns w s out s' evs e :
  run_do w s = (out, s', evs) -> In e (sent evs) -> out = Returned /\ sent evs <> [].
Proof.
  intros Hrun Hin.
  destruct (tick_sends w s out s' evs Hrun) as [Hs|(e' & pre & failed & Hs & Hout & _)];
    rewrite Hs in Hin |- *; [destruct Hin|]. split; [assumption|discriminate].
Qed.

(** C9 (amended).  A tick sends at most one error on the channel: the error
    of the first call that failed, and the send is the last thing the tick
    does before it returns.  The send does not block when the buffer of the
    channel is empty; it blocks when the buffer still holds an error that
    [Run] has not received. *)
Theorem C9_one_error_per_tick w s out s' evs :
  run_do w s = (out, s', evs) ->
  (List.length (sent evs) <= 1)%nat /\
  (forall e, In e (sent evs) ->
     out = Returned /\
     exists pre failed,
       evs = pre ++ [failed; EvSend e] /\
       sent pre = [] /\ existsb is_failed_call pre = false /\
       ((exists q rng, failed = EvQueryMetrics q rng (Err e)) \/
        (exists batch, failed = EvSubmitMetrics batch (Some e)))) /\
  (forall p e, errs p = [] ->
     errs (chan_send e p) = [e] /\ blocked (chan_send e p) = blocked p /\
     finished (chan_send e p) = S (finished p)) /\
  (forall p e, errs p <> [] ->
     errs (chan_send e p) = errs p /\ blocked (chan_send e p) = blocked p ++ [e] /\
     finished (chan_send e p) = finished p).
Proof.
  intros Hrun. split; [|split; [|split]].
  - destruct (tick_sends w s out s' evs Hrun) as [->|(e & pre & failed & -> & _)]; cbn; lia.
  - intros e Hin.
    destruct (tick_sends w s out s' evs Hrun)
      as [Hs|(e' & pre & failed & Hs & Hout & Hevs & Hpre & Hok & Hf)];
      rewrite Hs in Hin; [destruct Hin|].
    destruct Hin as [<-|[]]. split; [assumption|]. exists pre, failed. auto.
  - intros p e Hp. unfold chan_send. rewrite Hp. cbn. auto.
  - intros p e Hp. unfold chan_send. destruct (errs p) as [|x l]; [contradiction|].
    cbn. auto.
Qed.

(** C10.  [Run] returns only when the select takes an interrupt.  A tick
    that reports an error leaves the loop where it is; when the loop
    receives the error it sleeps [RetryInterval], three seconds, and then
    launches the next tick, whose queries run over the window computed from
    the clock at that tick's start. *)
Theorem C10_loop_survives_tick_errors w :
  (forall p i p', Run_step w p i = Some p' -> loop p' = Stopped ->
     exists sig, i = Interrupted sig) /\
  (forall inputs p, Run_exec w (Run_start w) inputs = Some p -> loop p = Stopped ->
     exists sig, In (Interrupted sig) inputs) /\
  (forall p s p' e, Run_step w p (TickRuns s) = Some p' ->
     In e (sent (snd (run_do w s))) ->
     loop p' = loop p /\ launched p' = launched p) /\
  (forall p p', Run_step w p ErrorReceived = Some p' ->
     RetryInterval = 3 * Second /\
     loop p' = Sleeping RetryInterval /\
     Run_step w p' SleepEnds = Some (launch p') /\
     loop (launch p') = Selecting /\ launched (launch p') = S (launched p)) /\
  (forall s rng, In rng (query_ranges (snd (run_do w s))) ->
     calcRange w (Now s) = Some rng).
Proof.
  split; [|split; [|split; [|split]]].
  - intros p i p' Hstep Hstop. apply (Run_step_stops w p i p' Hstep Hstop).
  - intros inputs p Hrun Hstop.
    apply (Run_exec_stops w inputs (Run_start w) p); [|assumption|assumption].
    unfold Run_start. destruct (SleepDuration w <=? 0); discriminate.
  - intros p s p' e. unfold Run_step.
    destruct (run_do w s) as [[out s'] evs] eqn:Hrun. cbn [snd]. intros Hstep Hin.
    destruct (tick_that_sends_returns w s out s' evs e Hrun Hin) as [-> Hne].
    destruct (sent evs) as [|e0 l]; [destruct Hin|].
    unfold chan_send, record_events in Hstep.
    destruct (loop p); try discriminate;
      (destruct (_ <? _)%nat; [|discriminate]); cbn in Hstep;
      match type of Hstep with context [if ?b then _ else _] => destruct b end;
      injection Hstep as <-; cbn; auto.
  - intros p p'. unfold Run_step.
    destruct (loop p) eqn:Hl; try discriminate.
    destruct (errs p) as [|e rest]; [discriminate|]. intros [= <-]. cbn.
    repeat split.
  - intros s rng. apply queries_use_the_ticks_window.
Qed.

End RunClaims.

(** ** Runs on the scripted backend *)

(** The example of the specification: one histogram, one counter and two
    quantiles give two histogram queries, one rate query and one raw query,
    and a batch with the series of the four results. *)
Lemma tick_example :
  let w := Example.exWorker (60 * Second) (15 * Second) (60 * Second) in
  let evs := snd (run_do w (Example.healthy 43247)) in
  queries evs =
    ["histogram_quantile(0.50, sum(rate(latency_bucket[1m])) by (temporal_namespace,operation,le))";
     "histogram_quantile(0.99, sum(rate(latency_bucket[1m])) by (temporal_namespace,operation,le))";
     "rate(requests_total[1m])";
     "requests_total"]%string /\
  submitted evs =
    [["gauge:histogram_quantile(0.50, sum(rate(latency_bucket[1m])) by (temporal_namespace,operation,le))";
      "gauge:histogram_quantile(0.99, sum(rate(latency_bucket[1m])) by (temporal_namespace,operation,le))";
      "rate:rate(requests_total[1m])";
      "count:requests_total"]]%string /\
  sent evs = [].
Proof. vm_compute. auto. Qed.

Lemma C2_witness :
  let w := Example.exWorker (60 * Second) (15 * Second) (60 * Second) in
  let s := Example.query_fails 43247 1 in
  existsb is_failed_call (snd (run_do w s)) = true /\
  submitted (snd (run_do w s)) = [].
Proof.
  intros w s. split; [vm_compute; reflexivity|].
  destruct (C2_no_partial_submission w s (fst (fst (run_do w s))) (snd (fst (run_do w s)))
              (snd (run_do w s))) as [H _]; [vm_compute; reflexivity|].
  apply H. vm_compute. reflexivity.
Defined.

(** C5, as stated, fails for a negative step: with a step of -15 s the tick
    lists the catalog and issues its four range queries. *)
Lemma C5_counterexample :
  let w := Example.exWorker (60 * Second) (-15 * Second) (60 * Second) in
  let evs := snd (run_do w (Example.healthy 43247)) in
  StepDuration w < 0 /\ List.length (queries evs) = 4%nat /\
  query_ranges evs
    = repeat {| Start := 43140; End_ := 43185; Step := -15 * Second |} 4.
Proof. vm_compute. auto. Qed.

Lemma C5_witness :
  let w0 := Example.exWorker (60 * Second) 0 (60 * Second) in
  let w := Example.exWorker (60 * Second) (-15 * Second) (60 * Second) in
  let s := Example.healthy 43247 in
  (run_do w0 s = (Panicked DivideByZero, s, []) /\ queries (snd (run_do w0 s)) = []) /\
  exists rng tl,
    calcRange w (Now s) = Some rng /\ Step rng = -15 * Second /\
    snd (run_do w s)
      = EvListMetrics "temporal_cloud"%string
          (Ok (["latency_bucket"%string], ["requests_total"%string])) :: tl /\
    (forall rng', In rng' (query_ranges tl) -> rng' = rng) /\
    (forall histograms counters,
       fst (ListMetrics (querier w) (MetricPrefix w) s) = Ok (histograms, counters) ->
       histogramQueries (Quantiles w) histograms ++ counterQueries counters <> [] ->
       queries tl <> []).
Proof.
  intros w0 w s. split.
  - destruct (C5_only_a_short_step_fails_fast w0 s) as [H _];
      [vm_compute; split; discriminate|].
    apply H. vm_compute. split; [reflexivity|discriminate].
  - destruct (C5_only_a_short_step_fails_fast w s) as [_ H];
      [vm_compute; split; discriminate|].
    apply H. vm_compute. discriminate.
Defined.

Lemma C6_witness :
  let w := Example.exWorker (60 * Second) (15 * Second) (60 * Second) in
  let s := Example.list_fails 43247 in
  In (EvListMetrics "temporal_cloud" (Err "list failed"%string)) (snd (run_do w s)) /\
  fst (fst (run_do w s)) = Panicked (PanicError "list failed"%string) /\
  forall p', Run_step w (Run_start w) (TickRuns s) = Some p' -> loop p' = Crashed.
Proof.
  intros w s.
  assert (Hin : In (EvListMetrics "temporal_cloud" (Err "list failed"%string))
                   (snd (run_do w s))) by (vm_compute; auto).
  split; [exact Hin|].
  destruct (C6_listing_failure_stops_the_process w s _ _ Hin) as (H1 & _ & _ & H4).
  split; [exact H1|]. intros p' Hp'. apply (H4 (Run_start w) p' Hp').
Defined.

Lemma C7_witness :
  let w := Example.exWorker (60 * Second) (15 * Second) (60 * Second) in
  let s := Example.healthy 43247 in
  let evs := snd (run_do w s) in
  sent evs = [] /\
  exists rng histograms counters hms cms,
    calcRange w (Now s) = Some rng /\
    In (EvListMetrics (MetricPrefix w) (Ok (histograms, counters))) evs /\
    queries evs = histogramQueries (Quantiles w) histograms ++ counterQueries counters /\
    Permutation (queries evs)
      (histogramQueries (Quantiles w) histograms
         ++ rateQueries counters ++ rawQueries counters) /\
    List.length (histogramQueries (Quantiles w) histograms)
      = (List.length (Quantiles w) * List.length histograms)%nat /\
    List.length (rateQueries counters) = List.length counters /\
    List.length (rawQueries counters) = List.length counters /\
    filter is_query evs
      = histogramEvents rng (histogramPairs (Quantiles w) histograms) hms
          ++ counterEvents rng counters cms /\
    List.length hms = (List.length (Quantiles w) * List.length histograms)%nat /\
    List.length cms = List.length counters /\
    submitted evs = [gaugeSeries (histogramPairs (Quantiles w) histograms) hms
                       ++ rateSeriesOf counters cms ++ countSeriesOf counters cms].
Proof.
  intros w s evs. split; [vm_compute; reflexivity|].
  apply (C7_queries_of_a_successful_tick w s (fst (fst (run_do w s)))
           (snd (fst (run_do w s))) evs); vm_compute; reflexivity.
Defined.

Lemma C8_witness :
  let w := Example.exWorker (60 * Second) (15 * Second) (60 * Second) in
  let s := Example.healthy 43247 in
  let evs := snd (run_do w s) in
  exists batch,
    In (EvSubmitMetrics batch None) evs /\
    exists rng histograms counters hms cms,
      In (EvListMetrics (MetricPrefix w) (Ok (histograms, counters))) evs /\
      filter is_query evs
        = histogramEvents rng (histogramPairs (Quantiles w) histograms) hms
            ++ counterEvents rng counters cms /\
      batch = gaugeSeries (histogramPairs (Quantiles w) histograms) hms
                ++ rateSeriesOf counters cms ++ countSeriesOf counters cms /\
      List.length batch
        = (List.length (gaugeSeries (histogramPairs (Quantiles w) histograms) hms)
           + List.length (rateSeriesOf counters cms)
           + List.length (countSeriesOf counters cms))%nat.
Proof.
  intros w s evs. eexists.
  assert (Hin : In (EvSubmitMetrics
                      (gaugeSeries (histogramPairs (Quantiles w) ["latency_bucket"%string])
                         [HistogramPromQL Example.q50 "latency_bucket";
                          HistogramPromQL Example.q99 "latency_bucket"]
                       ++ rateSeriesOf ["requests_total"%string]
                            [(RatePromQL "requests_total", "requests_total"%string)]
                       ++ countSeriesOf ["requests_total"%string]
                            [(RatePromQL "requests_total", "requests_total"%string)])
                      None) evs)
    by (vm_compute; do 5 right; left; reflexivity).
  split; [exact Hin|].
  apply (C8_batch_order w s (fst (fst (run_do w s))) (snd (fst (run_do w s))) evs _ None);
    [vm_compute; reflexivity|exact Hin].
Defined.

(** C9, as stated, fails when ticks overlap.  Three ticks are in flight
    (the ticker fired twice before the first one ended) and each fails its
    first query: the first error is received by [Run], which then sleeps;
    the second is buffered; the send of the third blocks. *)
Lemma C9_counterexample :
  let w := Example.exWorker (60 * Second) (15 * Second) (60 * Second) in
  let bad := Example.query_fails 43247 0 in
  sent (snd (run_do w bad)) = ["query failed"%string] /\
  exists p,
    Run_exec w (Run_start w)
      [TickerFires; TickerFires; TickRuns bad; ErrorReceived; TickRuns bad; TickRuns bad]
      = Some p /\
    loop p = Sleeping RetryInterval /\
    launched p = 3%nat /\ finished p = 2%nat /\
    failures p = ["query failed"%string] /\
    errs p = ["query failed"%string] /\
    blocked p = ["query failed"%string].
Proof.
  intros w bad. split; [vm_compute; reflexivity|].
  eexists. split; [vm_compute; reflexivity|]. vm_compute. repeat split.
Qed.

Lemma C9_witness :
  let w := Example.exWorker (60 * Second) (15 * Second) (60 * Second) in
  let s := Example.submit_fails 43247 in
  sent (snd (run_do w s)) = ["submit failed"%string] /\
  (List.length (sent (snd (run_do w s))) <= 1)%nat.
Proof.
  intros w s. split; [vm_compute; reflexivity|].
  destruct (C9_one_error_per_tick w s (fst (fst (run_do w s))) (snd (fst (run_do w s)))
              (snd (run_do w s))) as [H _]; [vm_compute; reflexivity|exact H].
Defined.

Lemma C10_witness :
  let w := Example.exWorker (60 * Second) (15 * Second) (60 * Second) in
  let bad := Example.submit_fails 43247 in
  exists p1 p2,
    Run_exec w (Run_start w) [TickRuns bad] = Some p1 /\
    errs p1 = ["submit failed"%string] /\ loop p1 = Selecting /\
    Run_step w p1 ErrorReceived = Some p2 /\
    loop p2 = Sleeping (3 * Second) /\
    Run_step w p2 SleepEnds = Some (launch p2) /\
    loop (launch p2) = Selecting /\ launched (launch p2) = 2%nat.
Proof.
  intros w bad.
  destruct (C10_loop_survives_tick_errors w) as (_ & _ & _ & H & _).
  pose (p1 := {| loop := Selecting; errs := ["submit failed"%string]; blocked := [];
                 launched := 1; finished := 1; failures := [];
                 history := snd (run_do w bad) |}).
  pose (p2 := {| loop := Sleeping RetryInterval; errs := []; blocked := [];
                 launched := 1; finished := 1; failures := ["submit failed"%string];
                 history := snd (run_do w bad) |}).
  assert (E2 : Run_step w p1 ErrorReceived = Some p2) by (vm_compute; reflexivity).
  destruct (H p1 p2 E2) as (_ & H2 & H3 & H4 & H5).
  exists p1, p2.
  split; [vm_compute; reflexivity|]. split; [reflexivity|]. split; [reflexivity|].
  split; [exact E2|]. split; [exact H2|]. split; [exact H3|]. split; [exact H4|exact H5].
Defined.

(** ** More on the window *)

Section RangeExtras.

Context {World Matrix MetricSeries : Type}.
Implicit Types w : Worker World Matrix MetricSeries.

(** X1.  For a query interval of [T] whole seconds the effective window is
    exactly [floor(1.2 T)] seconds: the float64 product loses nothing. *)
Theorem QueryWindow_whole_seconds w T :
  QueryInterval w = T * Second -> 0 <= T <= 7686143364 ->
  QueryWindow w = (6 * T / 5) * Second /\ windowSeconds w = 6 * T / 5.
Proof.
  intros HT HTb.
  destruct (windowSeconds_bounds w ltac:(rewrite HT; unfold Second; lia)) as (HW & Hb & HQ).
  rewrite HQ. enough (windowSeconds w = 6 * T / 5) as -> by auto.
  destruct (Z.eq_dec (T mod 5) 0) as [H5|H5].
  - (* a multiple of five seconds: the product is an integer *)
    destruct (Z.eq_dec T 0) as [->|HT0].
    + unfold windowSeconds, QueryWindow. rewrite HT. reflexivity.
    + pose proof (Z.div_mod T 5 ltac:(lia)) as HTd. rewrite H5, Z.add_0_r in HTd.
      set (j := T / 5) in *.
      assert (Hk : Float64.to_int64 (Float64.mul (Seconds (QueryInterval w)) Float64.f1_2)
                   = 6 * j).
      { rewrite HT, HTd. apply Float64Nearest.mul12_exact; lia. }
      unfold windowSeconds, QueryWindow. rewrite Hk.
      unfold mul64. rewrite wrap64_small by (unfold min_int64, max_int64, Second; lia).
      rewrite Float64Facts.Seconds_whole by (unfold Second; lia).
      rewrite HTd. replace (6 * (5 * j)) with (6 * j * 5) by ring.
      rewrite Z.div_mul by lia. reflexivity.
  - rewrite HT in Hb. unfold Second in Hb.
    pose proof (Z.div_mod T 5 ltac:(lia)) as HTd.
    pose proof (Z.mod_pos_bound T 5 ltac:(lia)) as HTm.
    apply Z.div_unique with (6 * T - 5 * windowSeconds w); lia.
Qed.

(** X2.  The padding.  For a clock at or after the effective window, the end of
    the window is the first step boundary after the clock's minute, and the
    start is one whole step before the last step boundary at or before that
    minute less the effective window; the window is between [W + step + 1]
    and [W + 3 step - 1] seconds long. *)
Theorem calcRange_padding w now :
  0 <= QueryInterval w <= 7686143364 * Second ->
  Second <= StepDuration w <= max_int64 ->
  0 <= now <= 2 ^ 62 -> windowSeconds w <= Z.quot now 60 * 60 ->
  exists r,
    calcRange w now = Some r /\
    let minute := Z.quot now 60 * 60 in
    let W := windowSeconds w in
    let st := stepSeconds w in
    now - 60 < minute <= now /\
    minute < End_ r <= minute + st /\
    minute - W - 2 * st < Start r <= minute - W - st /\
    W + st + 1 <= End_ r - Start r <= W + 3 * st - 1.
Proof.
  intros Hq Hs Hn Hw.
  pose proof (stepSeconds_range w Hs) as Hst.
  destruct (windowSeconds_bounds w Hq) as (HW & _ & _).
  eexists. split; [apply calcRange_eq;
                   [assumption|change (2 ^ 34) with 17179869184; lia
                   |change (2 ^ 62) with 4611686018427387904 in *; lia]|].
  cbn [Start End_]. cbv zeta.
  set (st := stepSeconds w) in *. set (W := windowSeconds w) in *.
  destruct (quot_pos_bounds now 60 ltac:(lia)) as (E1 & B1 & P1 & _).
  set (e0 := Z.quot now 60 * 60) in *.
  destruct (quot_pos_bounds (e0 - W) st ltac:(lia)) as (E2 & B2 & P2 & _).
  destruct (quot_pos_bounds e0 st ltac:(lia)) as (E3 & B3 & P3 & _).
  specialize (P1 ltac:(lia)). specialize (P2 ltac:(lia)). specialize (P3 ltac:(lia)).
  repeat split; nia.
Qed.

(** X3.  The window depends on the clock only through its minute: all the
    ticks that start within one minute query the same window. *)
Theorem calcRange_same_within_a_minute w minute a b :
  0 <= minute -> 0 <= a < 60 -> 0 <= b < 60 ->
  calcRange w (60 * minute + a) = calcRange w (60 * minute + b).
Proof.
  intros Hm Ha Hb. unfold calcRange.
  assert (Ea : Z.quot (60 * minute + a) 60 = minute).
  { rewrite Z.quot_div_nonneg by lia. symmetry. apply Z.div_unique with a; lia. }
  assert (Eb : Z.quot (60 * minute + b) 60 = minute).
  { rewrite Z.quot_div_nonneg by lia. symmetry. apply Z.div_unique with b; lia. }
  rewrite Ea, Eb. reflexivity.
Qed.

(** X4.  The window moves forward with the clock: a later tick never queries a
    window that starts or ends earlier. *)
Theorem calcRange_monotone w now1 now2 r1 r2 :
  1 <= stepSeconds w <= 2 ^ 34 -> 0 <= windowSeconds w <= 2 ^ 34 ->
  - 2 ^ 62 <= now1 -> now1 <= now2 -> now2 <= 2 ^ 62 ->
  calcRange w now1 = Some r1 -> calcRange w now2 = Some r2 ->
  Start r1 <= Start r2 /\ End_ r1 <= End_ r2.
Proof.
  intros Hst HW H1 H12 H2.
  rewrite !calcRange_eq by (assumption || lia).
  intros [= <-] [= <-]. cbn [Start End_].
  set (st := stepSeconds w) in *. set (W := windowSeconds w) in *.
  assert (Hm : Z.quot now1 60 <= Z.quot now2 60) by (apply Z.quot_le_mono; lia).
  assert (Hs : Z.quot (Z.quot now1 60 * 60 - W) st <= Z.quot (Z.quot now2 60 * 60 - W) st)
    by (apply Z.quot_le_mono; lia).
  assert (He : Z.quot (Z.quot now1 60 * 60) st <= Z.quot (Z.quot now2 60 * 60) st)
    by (apply Z.quot_le_mono; lia).
  split; nia.
Qed.

(** X5.  No gap.  Two ticks, the second at most [windowSeconds + stepSeconds - 58]
    seconds after the first, query windows that meet or overlap. *)
Theorem calcRange_no_gap w now1 now2 :
  0 <= QueryInterval w <= 7686143364 * Second ->
  Second <= StepDuration w <= max_int64 ->
  0 <= now1 -> now1 <= now2 -> now2 <= 2 ^ 62 ->
  windowSeconds w <= Z.quot now2 60 * 60 ->
  now2 - now1 + 58 <= windowSeconds w + stepSeconds w ->
  exists r1 r2,
    calcRange w now1 = Some r1 /\ calcRange w now2 = Some r2 /\
    Start r2 <= End_ r1.
Proof.
  intros Hq Hs H1 H12 H2 Hw Hd.
  pose proof (stepSeconds_range w Hs) as Hst.
  destruct (windowSeconds_bounds w Hq) as (HW & _ & _).
  change (2 ^ 62) with 4611686018427387904 in *.
  do 2 eexists.
  split; [apply calcRange_eq;
          [assumption|change (2 ^ 34) with 17179869184; lia
          |change (2 ^ 62) with 4611686018427387904; lia]|].
  split; [apply calcRange_eq;
          [assumption|change (2 ^ 34) with 17179869184; lia
          |change (2 ^ 62) with 4611686018427387904; lia]|].
  cbn [Start End_].
  set (st := stepSeconds w) in *. set (W := windowSeconds w) in *.
  destruct (quot_pos_bounds now1 60 ltac:(lia)) as (E1 & B1 & P1 & _).
  destruct (quot_pos_bounds now2 60 ltac:(lia)) as (E2 & B2 & P2 & _).
  specialize (P1 ltac:(lia)). specialize (P2 ltac:(lia)).
  set (e1 := Z.quot now1 60 * 60) in *. set (e2 := Z.quot now2 60 * 60) in *.
  destruct (quot_pos_bounds (e2 - W) st ltac:(lia)) as (E3 & B3 & P3 & _).
  destruct (quot_pos_bounds e1 st ltac:(lia)) as (E4 & B4 & P4 & _).
  specialize (P3 ltac:(lia)). specialize (P4 ltac:(lia)).
  nia.
Qed.

(** X6.  A step of less than a second, of either sign, has [stepSeconds = 0]; a
    step of a second or more keeps its sign.  So [calcRange] divides by zero
    exactly for the steps strictly between -1 s and 1 s, and then every tick
    panics before its first call. *)
Theorem subsecond_step_panics w :
  min_int64 < StepDuration w <= max_int64 ->
  (stepSeconds w = 0 <-> - Second < StepDuration w < Second) /\
  (StepDuration w <= - Second -> stepSeconds w <= -1) /\
  (forall now, calcRange w now = None <-> - Second < StepDuration w < Second).
Proof.
  intros Hd. unfold min_int64, max_int64 in Hd.
  assert (Hpos : forall d, Second <= d < 2 ^ 63 -> 1 <= Float64.to_int64 (Seconds d))
    by (intros d H; apply Float64Facts.stepSeconds_bounds; assumption).
  assert (Hcases : (- Second < StepDuration w < Second /\ stepSeconds w = 0)
                   \/ (Second <= StepDuration w /\ 1 <= stepSeconds w)
                   \/ (StepDuration w <= - Second /\ stepSeconds w <= -1)).
  { unfold stepSeconds. generalize dependent (StepDuration w). intros d Hd.
    destruct (Z_lt_le_dec d 0) as [Hneg|Hnn].
    - assert (Ed : d = - (- d)) by lia. set (d' := - d) in *. rewrite Ed.
      rewrite Float64Nearest.to_int64_Seconds_opp by lia.
      destruct (Z_lt_le_dec d' Second) as [Hsm|Hbig].
      + left. rewrite Float64Nearest.to_int64_Seconds_small by lia. lia.
      + right. right. specialize (Hpos d' ltac:(lia)). lia.
    - destruct (Z_lt_le_dec d Second) as [Hsm|Hbig].
      + left. rewrite Float64Nearest.to_int64_Seconds_small by lia. lia.
      + right. left. specialize (Hpos d ltac:(lia)). lia. }
  assert (Hiff : stepSeconds w = 0 <-> - Second < StepDuration w < Second)
    by (unfold Second in *; destruct Hcases as [?|[?|?]]; split; intros; lia).
  split; [exact Hiff|].
  split; [unfold Second in *; destruct Hcases as [?|[?|?]]; intros; lia|].
  intros now. rewrite <- Hiff. unfold calcRange, div64.
  destruct (Z.eqb_spec (stepSeconds w) 0) as [H|H].
  - split; auto.
  - split; [discriminate|contradiction].
Qed.

End RangeExtras.

Ltac by_computation := vm_compute; repeat split; (discriminate || reflexivity).

Lemma QueryWindow_whole_seconds_witness :
  let w := Example.exWorker (60 * Second) (15 * Second) (60 * Second) in
  QueryWindow w = 72 * Second /\ windowSeconds w = 72.
Proof.
  intros w. apply (QueryWindow_whole_seconds w 60); [reflexivity|lia].
Defined.

Lemma calcRange_padding_witness :
  let w := Example.exWorker (60 * Second) (15 * Second) (60 * Second) in
  exists r,
    calcRange w 43247 = Some r /\
    43247 - 60 < 43200 <= 43247 /\
    43200 < End_ r <= 43200 + 15 /\
    43200 - 72 - 2 * 15 < Start r <= 43200 - 72 - 15 /\
    72 + 15 + 1 <= End_ r - Start r <= 72 + 3 * 15 - 1.
Proof.
  intros w. apply (calcRange_padding w 43247); by_computation.
Defined.

Lemma calcRange_same_within_a_minute_witness :
  let w := Example.exWorker (60 * Second) (15 * Second) (60 * Second) in
  calcRange w (60 * 720 + 0) = calcRange w (60 * 720 + 47).
Proof.
  intros w. apply (calcRange_same_within_a_minute w 720 0 47); lia.
Defined.

Lemma calcRange_monotone_witness :
  let w := Example.exWorker (60 * Second) (15 * Second) (60 * Second) in
  exists r1 r2,
    calcRange w 43247 = Some r1 /\ calcRange w 43307 = Some r2 /\
    Start r1 <= Start r2 /\ End_ r1 <= End_ r2.
Proof.
  intros w. do 2 eexists.
  split; [vm_compute; reflexivity|]. split; [vm_compute; reflexivity|].
  apply (calcRange_monotone w 43247 43307); by_computation.
Defined.

Lemma calcRange_no_gap_witness :
  let w := Example.exWorker (300 * Second) (60 * Second) (60 * Second) in
  exists r1 r2,
    calcRange w 43247 = Some r1 /\ calcRange w 43607 = Some r2 /\
    Start r2 <= End_ r1.
Proof.
  intros w. apply (calcRange_no_gap w 43247 43607); by_computation.
Defined.

Lemma subsecond_step_panics_witness :
  let w := Example.exWorker (60 * Second) 500000000 (60 * Second) in
  (stepSeconds w = 0 <-> - Second < StepDuration w < Second) /\
  (StepDuration w <= - Second -> stepSeconds w <= -1) /\
  (forall now, calcRange w now = None <-> - Second < StepDuration w < Second).
Proof.
  intros w. apply (subsecond_step_panics w); by_computation.
Defined.

(** ** More on a tick *)

Section TickExtras.

Context {World Matrix MetricSeries : Type}.
Context {ext : Externals World Matrix MetricSeries}.
Implicit Types w : Worker World Matrix MetricSeries.
Implicit Types s : World.
Implicit Types evs : list (Event Matrix MetricSeries).

Ltac tick_unfold :=
  unfold bind, send, return_, ret, panic; cbv beta iota zeta; cbn [app fst snd].

(** The queries of each loop are an initial part of the queries the loop
    would issue if none failed; all of them when the loop completes. *)
Lemma histogramBuckets_queries w rng quantile buckets : forall acc s,
  match histogramBuckets w rng quantile buckets acc s with
  | (fl, _, evs) =>
      exists rest,
        queries evs ++ rest = map (HistogramPromQL quantile) buckets /\
        match fl with Next _ => rest = [] | Stop _ => True end
  end.
Proof.
  induction buckets as [|b rest IH]; intros acc s.
  - exists []. auto.
  - cbn [histogramBuckets]. unfold bind at 1; unfold queryMetrics at 1.
    destruct (QueryMetrics (querier w) (HistogramPromQL quantile b) rng s) as [[m|e] s1];
      cbv beta iota zeta.
    + specialize (IH (acc ++ PromHistogramToDatadogGauge b quantile m) s1).
      destruct (histogramBuckets w rng quantile rest _ s1) as [[fl s'] evs].
      destruct IH as (r & Hr & Hfl). exists r. split; [|assumption].
      cbn [map]. rewrite <- Hr. reflexivity.
    + tick_unfold. exists (map (HistogramPromQL quantile) rest). auto.
Qed.

Lemma histogramQuantiles_queries w rng histograms quantiles : forall acc s,
  match histogramQuantiles w rng quantiles histograms acc s with
  | (fl, _, evs) =>
      exists rest,
        queries evs ++ rest = histogramQueries quantiles histograms /\
        match fl with Next _ => rest = [] | Stop _ => True end
  end.
Proof.
  assert (Hcons : forall q qs,
            histogramQueries (q :: qs) histograms
              = map (HistogramPromQL q) histograms ++ histogramQueries qs histograms).
  { intros q qs. unfold histogramQueries, histogramPairs. cbn [list_prod].
    rewrite map_app, map_map. reflexivity. }
  induction quantiles as [|q qs IH]; intros acc s.
  - exists []. auto.
  - cbn [histogramQuantiles]. unfold bind at 1.
    pose proof (histogramBuckets_queries w rng q histograms acc s) as Hin.
    destruct (histogramBuckets w rng q histograms acc s) as [[[a1|o] s1] evs1].
    + destruct Hin as (r1 & Hr1 & ->). rewrite app_nil_r in Hr1.
      specialize (IH a1 s1).
      destruct (histogramQuantiles w rng qs histograms a1 s1) as [[fl s2] evs2].
      destruct IH as (r & Hr & Hfl). exists r.
      split; [|assumption].
      rewrite queries_app, <- app_assoc, Hr, Hr1, Hcons. reflexivity.
    + destruct Hin as (r1 & Hr1 & _). exists (r1 ++ histogramQueries qs histograms).
      split; [|exact I]. rewrite app_assoc, Hr1, Hcons. reflexivity.
Qed.

Lemma counterLoop_queries w rng counters : forall rate count s,
  match counterLoop w rng counters rate count s with
  | (fl, _, evs) =>
      exists rest,
        queries evs ++ rest = counterQueries counters /\
        match fl with Next _ => rest = [] | Stop _ => True end
  end.
Proof.
  induction counters as [|c cs IH]; intros rate count s.
  - exists []. auto.
  - cbn [counterLoop]. unfold bind at 1; unfold queryMetrics at 1.
    destruct (QueryMetrics (querier w) (RatePromQL c) rng s) as [[m1|e] s1];
      cbv beta iota zeta.
    + unfold bind at 1; unfold queryMetrics at 1.
      destruct (QueryMetrics (querier w) c rng s1) as [[m2|e] s2]; cbv beta iota zeta.
      * specialize (IH (rate ++ PromCountToDatadogRate c m1)
                       (count ++ PromCountToDatadogCount c m2) s2).
        destruct (counterLoop w rng cs _ _ s2) as [[fl s'] evs].
        destruct IH as (r & Hr & Hfl). exists r.
        split; [|assumption].
        change (counterQueries (c :: cs)) with (RatePromQL c :: c :: counterQueries cs).
        rewrite <- Hr. reflexivity.
      * tick_unfold. exists (counterQueries cs). auto.
    + tick_unfold. exists (c :: counterQueries cs). auto.
Qed.

(** X7.  The queries of any tick -- completed or aborted -- are an initial part
    of the sequence: histogram queries in loop order, then for each counter
    its rate query and its raw query.  So a tick never issues more than
    [Q*H + 2C] queries, and never a counter query before the last histogram
    query. *)
Theorem tick_queries_prefix w s rng histograms counters s1 :
  calcRange w (Now s) = Some rng ->
  ListMetrics (querier w) (MetricPrefix w) s = (Ok (histograms, counters), s1) ->
  exists rest,
    queries (snd (run_do w s)) ++ rest
      = histogramQueries (Quantiles w) histograms ++ counterQueries counters /\
    (List.length (queries (snd (run_do w s)))
       <= List.length (Quantiles w) * List.length histograms + 2 * List.length counters)%nat.
Proof.
  intros Hrng Hlist.
  enough (H : exists rest, queries (snd (run_do w s)) ++ rest
                = histogramQueries (Quantiles w) histograms ++ counterQueries counters).
  { destruct H as (rest & Hrest). exists rest. split; [assumption|].
    apply (f_equal (@List.length _)) in Hrest.
    rewrite !length_app, length_histogramQueries in Hrest.
    assert (Hc : List.length (counterQueries counters) = (2 * List.length counters)%nat).
    { unfold counterQueries. clear. induction counters as [|c cs IH]; [reflexivity|].
      cbn [flat_map app List.length]. rewrite IH. lia. }
    lia. }
  unfold run_do, do. unfold bind at 1; unfold timeNow at 1. cbv beta iota zeta.
  rewrite Hrng. unfold bind at 1; unfold listMetrics at 1. rewrite Hlist.
  cbv beta iota zeta. unfold bind at 1.
  pose proof (histogramQuantiles_queries w rng histograms (Quantiles w) [] s1) as Hh.
  destruct (histogramQuantiles w rng (Quantiles w) histograms [] s1) as [[[a1|o] s2] evs1].
  - destruct Hh as (r1 & Hr1 & ->). rewrite app_nil_r in Hr1.
    unfold bind at 1.
    pose proof (counterLoop_queries w rng counters [] [] s2) as Hc.
    destruct (counterLoop w rng counters [] [] s2) as [[[a2|o] s3] evs2].
    + destruct Hc as (r2 & Hr2 & ->). rewrite app_nil_r in Hr2.
      unfold bind at 1; unfold submitMetrics at 1.
      destruct (SubmitMetrics (submitter w) _ s3) as [[e|] s4]; tick_unfold;
        exists []; rewrite app_nil_r;
        change (queries (EvListMetrics ?a ?b :: ?l)) with (queries l);
        rewrite !queries_app, Hr1, Hr2; cbn; rewrite app_nil_r; reflexivity.
    + destruct Hc as (r2 & Hr2 & _). tick_unfold. exists r2.
      change (queries (EvListMetrics ?a ?b :: ?l)) with (queries l).
      rewrite queries_app, <- app_assoc, Hr1, Hr2. reflexivity.
  - destruct Hh as (r1 & Hr1 & _). tick_unfold. exists (r1 ++ counterQueries counters).
    change (queries (EvListMetrics ?a ?b :: ?l)) with (queries l).
    rewrite app_assoc, Hr1. reflexivity.
Qed.

Lemma histogramQuantiles_no_buckets w rng quantiles : forall acc s,
  histogramQuantiles w rng quantiles [] acc s = (Next acc, s, []).
Proof.
  induction quantiles as [|q qs IH]; intros acc s; [reflexivity|].
  cbn [histogramQuantiles histogramBuckets]. unfold bind, ret. rewrite IH. reflexivity.
Qed.

(** X8.  An empty catalog.  When the listing returns no counters, and no
    histograms or no quantile is configured, the tick issues no query and
    still calls [SubmitMetrics], once, with an empty batch. *)
Theorem empty_catalog_submits_empty_batch w s rng histograms s1 :
  calcRange w (Now s) = Some rng ->
  ListMetrics (querier w) (MetricPrefix w) s = (Ok (histograms, []), s1) ->
  histograms = [] \/ Quantiles w = [] ->
  run_do w s =
    (Returned, snd (SubmitMetrics (submitter w) [] s1),
     [EvListMetrics (MetricPrefix w) (Ok (histograms, []));
      EvSubmitMetrics [] (fst (SubmitMetrics (submitter w) [] s1))]
       ++ match fst (SubmitMetrics (submitter w) [] s1) with
          | Some e => [EvSend e]
          | None => []
          end).
Proof.
  intros Hrng Hlist Hempty.
  unfold run_do, do. unfold bind at 1; unfold timeNow at 1. cbv beta iota zeta.
  rewrite Hrng. unfold bind at 1; unfold listMetrics at 1. rewrite Hlist.
  cbv beta iota zeta. unfold bind at 1.
  assert (Hh : histogramQuantiles w rng (Quantiles w) histograms [] s1 = (Next [], s1, [])).
  { destruct Hempty as [-> | ->]; [apply histogramQuantiles_no_buckets|reflexivity]. }
  rewrite Hh. unfold bind at 1. cbn [counterLoop]. unfold ret at 1.
  unfold bind at 1; unfold submitMetrics at 1. cbn [fst snd app].
  destruct (SubmitMetrics (submitter w) [] s1) as [[e|] s2]; reflexivity.
Qed.

(** X9.  The order of the calls of a tick: the catalog listing first and once,
    then range queries only, then at most one submission, then at most one
    send; nothing at all when the range computation panics. *)
Theorem tick_call_order w s out s' evs :
  run_do w s = (out, s', evs) ->
  evs = [] \/
  exists r qs sub snd,
    evs = EvListMetrics (MetricPrefix w) r :: qs ++ sub ++ snd /\
    Forall (fun ev => is_query ev = true) qs /\
    (sub = [] \/ exists batch res, sub = [EvSubmitMetrics batch res]) /\
    (snd = [] \/ exists e, snd = [EvSend e]) /\
    (forall e, r = Err e -> qs = [] /\ sub = [] /\ snd = []).
Proof.
  intros Hrun. pose proof (do_shape w s out s' evs Hrun) as Hs.
  assert (Hq : forall rng (l : list (Event Matrix MetricSeries)),
            Forall (ok_query_at rng) l -> Forall (fun ev => is_query ev = true) l).
  { intros rng l H. eapply Forall_impl; [|exact H]. intros ev (q & m & ->). reflexivity. }
  destruct Hs as [Hr|rng e Hr|rng hs cs evs' Hr Hab|rng hs cs hms cms r Hr Hl1 Hl2].
  - left. reflexivity.
  - right. exists (Err e), [], [], []. repeat split; auto.
  - right. destruct Hab as (okq & q & e & Hok & ->).
    exists (Ok (hs, cs)), (okq ++ [EvQueryMetrics q rng (Err e)]), [], [EvSend e].
    split; [rewrite <- app_assoc; reflexivity|].
    split; [apply Forall_app; split; [eapply Hq; eassumption|repeat constructor]|].
    split; [auto|]. split; [eauto|]. intros e0 [=].
  - right.
    exists (Ok (hs, cs)),
           (histogramEvents rng (histogramPairs (Quantiles w) hs) hms
              ++ counterEvents rng cs cms),
           [EvSubmitMetrics ((gaugeSeries (histogramPairs (Quantiles w) hs) hms
                                ++ rateSeriesOf cs cms) ++ countSeriesOf cs cms) r],
           (match r with Some e => [EvSend e] | None => [] end).
    split; [f_equal; apply app_assoc|].
    split; [apply Forall_app; split; eapply Hq;
            [apply histogramEvents_ok|apply (counterEvents_ok (MetricSeries := MetricSeries))]|].
    split; [eauto|]. split; [destruct r; eauto|]. intros e0 [=].
Qed.

End TickExtras.

Lemma tick_queries_prefix_witness :
  let w := Example.exWorker (60 * Second) (15 * Second) (60 * Second) in
  let s := Example.query_fails 43247 1 in
  exists rest,
    queries (snd (run_do w s)) ++ rest
      = histogramQueries (Quantiles w) ["latency_bucket"%string]
          ++ counterQueries ["requests_total"%string] /\
    (List.length (queries (snd (run_do w s))) <= 2 * 1 + 2 * 1)%nat.
Proof.
  intros w s.
  eapply (tick_queries_prefix w s _ ["latency_bucket"%string] ["requests_total"%string] _);
    vm_compute; reflexivity.
Defined.

Lemma empty_catalog_submits_empty_batch_witness :
  let w := EmptyCatalog.emptyWorker (60 * Second) (15 * Second) (60 * Second) in
  let s := Example.healthy 43247 in
  run_do w s = (Returned, s, [EvListMetrics "temporal_cloud"%string (Ok ([], []));
                              EvSubmitMetrics [] None]).
Proof.
  intros w s.
  eapply (empty_catalog_submits_empty_batch w s _ [] s);
    [vm_compute; reflexivity|reflexivity|left; reflexivity].
Defined.

Lemma tick_call_order_witness :
  let w := Example.exWorker (60 * Second) (15 * Second) (60 * Second) in
  let s := Example.submit_fails 43247 in
  let evs := snd (run_do w s) in
  evs = [] \/
  exists r qs sub snd,
    evs = EvListMetrics (MetricPrefix w) r :: qs ++ sub ++ snd /\
    Forall (fun ev => is_query ev = true) qs /\
    (sub = [] \/ exists batch res, sub = [EvSubmitMetrics batch res]) /\
    (snd = [] \/ exists e, snd = [EvSend e]) /\
    (forall e, r = Err e -> qs = [] /\ sub = [] /\ snd = []).
Proof.
  intros w s evs.
  apply (tick_call_order w s (fst (fst (run_do w s))) (snd (fst (run_do w s)))).
  unfold evs. destruct (run_do w s) as [[out s'] l]. reflexivity.
Defined.

(** ** More on the loop *)

Section RunExtras.

Context {World Matrix MetricSeries : Type}.
Context {ext : Externals World Matrix MetricSeries}.
Implicit Types w : Worker World Matrix MetricSeries.
Implicit Types p : Proc Matrix MetricSeries.

Lemma Run_start_invariant w : Run_invariant (Run_start w).
Proof.
  unfold Run_invariant, Run_start, errsCapacity.
  destruct (SleepDuration w <=? 0); cbn; repeat split; try lia; congruence.
Qed.

Ltac proj_simpl := cbn [loop errs blocked launched finished failures history].

Lemma Run_step_invariant w p i p' :
  Run_invariant p -> Run_step w p i = Some p' -> Run_invariant p'.
Proof.
  intros (Herr & Hcap & Hblk & Hfin) Hstep. unfold errsCapacity in *.
  unfold Run_step in Hstep.
  assert (Hlive : loop p = Selecting \/ exists d, loop p = Sleeping d).
  { destruct (loop p); eauto; discriminate. }
  assert (Hstep' :
    match i with
    | TickRuns s =>
        if (finished p + List.length (blocked p) <? launched p)%nat then
          match run_do w s with
          | (Panicked _, _, evs) =>
              Some {| loop := Crashed; errs := errs p; blocked := blocked p;
                      launched := launched p; finished := finished p;
                      failures := failures p; history := history p ++ evs |}
          | (Returned, _, evs) =>
              match sent evs with
              | [] =>
                  Some {| loop := loop p; errs := errs p; blocked := blocked p;
                          launched := launched p; finished := S (finished p);
                          failures := failures p; history := history p ++ evs |}
              | e :: _ => Some (chan_send e (record_events evs p))
              end
          end
        else None
    | ErrorReceived =>
        match loop p, errs p with
        | Selecting, e :: rest =>
            Some {| loop := Sleeping RetryInterval;
                    errs := rest ++ firstn 1 (blocked p);
                    blocked := skipn 1 (blocked p);
                    launched := launched p;
                    finished := finished p + List.length (firstn 1 (blocked p));
                    failures := failures p ++ [e]; history := history p |}
        | _, _ => None
        end
    | TickerFires => match loop p with Selecting => Some (launch p) | _ => None end
    | Interrupted _ =>
        match loop p with
        | Selecting =>
            Some {| loop := Stopped; errs := errs p; blocked := blocked p;
                    launched := launched p; finished := finished p;
                    failures := failures p; history := history p |}
        | _ => None
        end
    | SleepEnds => match loop p with Sleeping _ => Some (launch p) | _ => None end
    end = Some p').
  { destruct Hlive as [E|[d E]]; rewrite E in Hstep; rewrite ?E; exact Hstep. }
  clear Hstep Hlive.
  destruct i as [s| | |sig|].
  - destruct (finished p + List.length (blocked p) <? launched p)%nat eqn:Hlt;
      [|discriminate]. apply Nat.ltb_lt in Hlt.
    destruct (run_do w s) as [[out s'] evs] eqn:Hrun.
    pose proof (tick_sends w s out s' evs Hrun) as Hsent.
    destruct out as [|v].
    + destruct (sent evs) as [|e l] eqn:Hs.
      * injection Hstep' as <-. unfold Run_invariant; proj_simpl.
        rewrite sent_app, Hs, app_nil_r. repeat split; auto; lia.
      * assert (l = []) as ->.
        { destruct Hsent as [?|(e' & ? & ? & [= _ ->] & _)]; [discriminate|reflexivity]. }
        injection Hstep' as <-. unfold chan_send, record_events, errsCapacity; proj_simpl.
        destruct (List.length (errs p) <? 1)%nat eqn:Hroom;
          unfold Run_invariant, errsCapacity; proj_simpl; rewrite sent_app, Hs, <- Herr.
        -- apply Nat.ltb_lt in Hroom.
           assert (blocked p = []) as Hb.
           { destruct (blocked p); [reflexivity|]. exfalso.
             assert (List.length (errs p) = 1)%nat by (apply Hblk; discriminate). lia. }
           rewrite Hb in *. rewrite length_app. cbn [List.length] in *. rewrite !app_nil_r.
           split; [rewrite app_assoc; reflexivity|].
           split; [lia|]. split; [intros; lia|lia].
        -- apply Nat.ltb_ge in Hroom. rewrite length_app. cbn [List.length].
           split; [rewrite <- !app_assoc; reflexivity|].
           split; [lia|]. split; [intros; lia|lia].
    + injection Hstep' as <-. unfold Run_invariant; proj_simpl.
      assert (sent evs = []) as Hs.
      { destruct Hsent as [?|(e' & ? & ? & _ & [=] & _)]; assumption. }
      rewrite sent_app, Hs, app_nil_r. repeat split; auto.
  - destruct (loop p); try discriminate.
    destruct (errs p) as [|e rest] eqn:He; [discriminate|].
    injection Hstep' as <-. unfold Run_invariant, errsCapacity; proj_simpl.
    cbn [List.length] in Hcap.
    assert (rest = []) as -> by (destruct rest; [reflexivity|cbn in Hcap; lia]).
    rewrite <- Herr.
    destruct (blocked p) as [|b bs]; cbn [firstn skipn app List.length] in *.
    + split; [rewrite <- !app_assoc; reflexivity|].
      split; [lia|]. split; [congruence|lia].
    + split; [rewrite <- !app_assoc; reflexivity|].
      split; [lia|]. split; [intros; lia|lia].
  - destruct (loop p); try discriminate. injection Hstep' as <-.
    unfold Run_invariant, launch; cbn. repeat split; auto.
  - destruct (loop p); try discriminate. injection Hstep' as <-.
    unfold Run_invariant; cbn. repeat split; auto.
  - destruct (loop p); try discriminate. injection Hstep' as <-.
    unfold Run_invariant, launch; cbn. repeat split; auto.
Qed.

Lemma Run_exec_invariant w inputs : forall p p',
  Run_invariant p -> Run_exec w p inputs = Some p' -> Run_invariant p'.
Proof.
  induction inputs as [|i rest IH]; intros p p' Hinv Hexec; cbn in Hexec.
  - injection Hexec as <-. assumption.
  - destruct (Run_step w p i) as [p1|] eqn:Hstep; [|discriminate].
    eapply IH; [|eassumption]. eapply Run_step_invariant; eassumption.
Qed.

(** X10.  No error is lost, duplicated or reordered.  In every state [Run] can
    reach, the errors the ticks have sent so far are, in the order sent,
    the ones [Run] has logged, then the one buffered in the channel, then
    those of the goroutines waiting to send; the channel never holds more
    than its capacity, a goroutine waits only while the channel is full,
    and no more ticks have ended than were launched. *)
Theorem Run_error_accounting w inputs p :
  Run_exec w (Run_start w) inputs = Some p ->
  failures p ++ errs p ++ blocked p = sent (history p) /\
  (List.length (errs p) <= errsCapacity)%nat /\
  (blocked p <> [] -> List.length (errs p) = errsCapacity) /\
  (finished p + List.length (blocked p) <= launched p)%nat.
Proof.
  intros Hexec. exact (Run_exec_invariant w inputs _ _ (Run_start_invariant w) Hexec).
Qed.

(** X11.  [Run] never waits for a tick to end.  From any state where [Run] is at
    its [select], any number of ticker firings is accepted, each launching
    one more [do] goroutine, whatever the number still running. *)
Theorem Run_never_waits_for_a_tick w p n :
  loop p = Selecting ->
  Run_exec w p (repeat TickerFires n) =
    Some {| loop := Selecting; errs := errs p; blocked := blocked p;
            launched := launched p + n; finished := finished p;
            failures := failures p; history := history p |}.
Proof.
  revert p. induction n as [|n IH]; intros p Hsel; cbn [repeat Run_exec].
  - rewrite Nat.add_0_r. destruct p; cbn in *. subst. reflexivity.
  - unfold Run_step. rewrite Hsel. rewrite (IH (launch p) eq_refl). cbn.
    rewrite Nat.add_succ_r. reflexivity.
Qed.

Lemma Run_step_counts w p i p' :
  Run_step w p i = Some p' ->
  launched p' = (launched p + (if is_ticker i then 1 else 0) + (if is_wake i then 1 else 0))%nat /\
  List.length (failures p') = (List.length (failures p) + (if is_receive i then 1 else 0))%nat /\
  (loop p' <> Crashed ->
   ((if is_receive i then 1 else 0) + backing_off (loop p)
    = (if is_wake i then 1 else 0) + backing_off (loop p'))%nat).
Proof.
  unfold Run_step. intros Hstep.
  destruct (loop p) eqn:Hl; try discriminate;
    destruct i as [s| | |sig|]; try discriminate.
  all: repeat match type of Hstep with
       | context [if ?b then _ else _] => destruct b; try discriminate
       | context [match run_do ?w ?s with _ => _ end] =>
           destruct (run_do w s) as [[[|?] ?] ?]
       | context [match sent ?e with _ => _ end] => destruct (sent e)
       | context [match errs ?p with _ => _ end] => destruct (errs p); try discriminate
       end.
  all: try (unfold chan_send, record_events in Hstep; cbn in Hstep;
            match type of Hstep with
            | context [if ?b then _ else _] => destruct b
            end).
  all: injection Hstep as <-; cbn; rewrite ?Hl, ?length_app; cbn;
       repeat split; try lia; try congruence.
Qed.

Lemma Run_exec_counts w inputs : forall p p',
  Run_exec w p inputs = Some p' ->
  launched p' = (launched p + count_inputs is_ticker inputs + count_inputs is_wake inputs)%nat /\
  List.length (failures p')
    = (List.length (failures p) + count_inputs is_receive inputs)%nat /\
  (loop p' <> Crashed ->
   (count_inputs is_receive inputs + backing_off (loop p)
    = count_inputs is_wake inputs + backing_off (loop p'))%nat).
Proof.
  unfold count_inputs.
  induction inputs as [|i rest IH]; intros p p' Hexec; cbn [Run_exec] in Hexec.
  - injection Hexec as <-. cbn. repeat split; lia.
  - destruct (Run_step w p i) as [p1|] eqn:Hstep; [|discriminate].
    destruct (Run_step_counts w p i p1 Hstep) as (H1 & H2 & H3).
    destruct (IH p1 p' Hexec) as (I1 & I2 & I3).
    assert (Hlive : loop p' <> Crashed -> loop p1 <> Crashed).
    { intros Hp' Hc. destruct rest as [|j rest'].
      - cbn in Hexec. injection Hexec as <-. contradiction.
      - cbn in Hexec. unfold Run_step in Hexec. rewrite Hc in Hexec. discriminate. }
    cbn [filter].
    destruct i; cbn [is_ticker is_wake is_receive] in *; cbn [List.length];
      repeat split; try lia; intros Hp'; specialize (I3 Hp'); specialize (H3 (Hlive Hp')); lia.
Qed.

(** X12.  The bookkeeping of the loop, for a positive [SleepDuration] (with
    any other [time.NewTicker] panics and no tick is ever launched).  In a
    state [Run] reaches, the number of ticks launched is one (before the
    first [select]) plus one per ticker firing and one per ended back-off;
    [Run] has logged one error per receive; and, unless the process
    crashed, a back-off follows each received error and nothing else: the
    receives are the ended back-offs, plus the one in progress if [Run] is
    sleeping. *)
Theorem Run_launch_accounting w inputs p :
  0 < SleepDuration w ->
  Run_exec w (Run_start w) inputs = Some p ->
  launched p = (1 + count_inputs is_ticker inputs + count_inputs is_wake inputs)%nat /\
  List.length (failures p) = count_inputs is_receive inputs /\
  (loop p <> Crashed ->
   count_inputs is_receive inputs
     = (count_inputs is_wake inputs + backing_off (loop p))%nat).
Proof.
  intros Hpos Hexec. destruct (Run_exec_counts w inputs _ _ Hexec) as (H1 & H2 & H3).
  unfold Run_start in H1, H2, H3.
  replace (SleepDuration w <=? 0) with false in * by (symmetry; apply Z.leb_gt; assumption).
  cbn in H1, H2, H3. repeat split; try lia. intros Hp. specialize (H3 Hp). lia.
Qed.

End RunExtras.

Lemma Run_error_accounting_witness :
  let w := Example.exWorker (60 * Second) (15 * Second) (60 * Second) in
  let bad := Example.submit_fails 43247 in
  exists p,
    Run_exec w (Run_start w)
      [TickRuns bad; TickerFires; TickRuns bad; TickerFires; TickRuns bad; ErrorReceived]
      = Some p /\
    failures p ++ errs p ++ blocked p = sent (history p) /\
    (List.length (errs p) <= errsCapacity)%nat /\
    (blocked p <> [] -> List.length (errs p) = errsCapacity) /\
    (finished p + List.length (blocked p) <= launched p)%nat.
Proof.
  intros w bad. eexists. split; [vm_compute; reflexivity|].
  apply (Run_error_accounting w
           [TickRuns bad; TickerFires; TickRuns bad; TickerFires; TickRuns bad; ErrorReceived]).
  vm_compute. reflexivity.
Defined.

Lemma Run_never_waits_for_a_tick_witness :
  let w := Example.exWorker (60 * Second) (15 * Second) (60 * Second) in
  Run_exec w (Run_start w) (repeat TickerFires 3) =
    Some {| loop := Selecting; errs := []; blocked := [];
            launched := 1 + 3; finished := 0; failures := []; history := [] |}.
Proof.
  intros w. apply (Run_never_waits_for_a_tick w (Run_start w) 3). reflexivity.
Defined.

Lemma Run_launch_accounting_witness :
  let w := Example.exWorker (60 * Second) (15 * Second) (60 * Second) in
  let bad := Example.submit_fails 43247 in
  let inputs := [TickRuns bad; ErrorReceived; SleepEnds; TickerFires; TickRuns bad;
                 ErrorReceived] in
  exists p,
    Run_exec w (Run_start w) inputs = Some p /\
    launched p = (1 + count_inputs is_ticker inputs + count_inputs is_wake inputs)%nat /\
    List.length (failures p) = count_inputs is_receive inputs /\
    (loop p <> Crashed ->
     count_inputs is_receive inputs
       = (count_inputs is_wake inputs + backing_off (loop p))%nat).
Proof.
  intros w bad inputs. eexists. split; [vm_compute; reflexivity|].
  apply (Run_launch_accounting w inputs); vm_compute; reflexivity.
Defined.
